(** * foldersync.pattern: Ant-style globs, verified against the Python source

    A shallow embedding of [src/foldersync/pattern.py]: [Matcher], [Section]
    (here [Sect], since [Section] is a vernacular command), [MatchType],
    [Pattern] and [PatternSet], and the walk over a list of file names
    ([list_to_tree], [tree_walk], [walk_from_list]), followed by the
    properties of the engine.

    Python integers are unbounded, so indices are in [Z]; a Python exception is
    a [Raise] of the [result] type; Python sets of file names are [gset string];
    a reference to a [Pattern] object carries the address that [==] compares. *)

From Stdlib Require Import ZArith Lia Bool List Ascii String Sorted.
From stdpp Require Import base gmap sets list strings.
From Equations Require Import Equations.
Import ListNotations.

Local Open Scope Z_scope.

(** ** Python exceptions *)

Inductive exn : Type :=
  | PatternError
  | IndexError
  | ValueError.

Inductive result (A : Type) : Type :=
  | Ok (a : A)
  | Raise (e : exn).

Arguments Ok {A} a.
Arguments Raise {A} e.

Definition bind {A B : Type} (r : result A) (k : A -> result B) : result B :=
  match r with
  | Ok a => k a
  | Raise e => Raise e
  end.

Notation "'let*' x ':=' r 'in' k" := (bind r (fun x => k))
  (at level 10, x name, r at level 100, k at level 200).

(** ** Python built-ins used by the module *)

(** [len(xs)] *)
Definition len {A : Type} (xs : list A) : Z := Z.of_nat (List.length xs).

(** [xs[i]]: a negative index counts from the end; out of range raises. *)
Definition py_index {A : Type} (xs : list A) (i : Z) : result A :=
  let i' := if i <? 0 then len xs + i else i in
  if (0 <=? i') && (i' <? len xs)
  then match nth_error xs (Z.to_nat i') with
       | Some x => Ok x
       | None => Raise IndexError
       end
  else Raise IndexError.

(** [range(start, stop)] *)
Fixpoint count_from (start : Z) (n : nat) : list Z :=
  match n with
  | O => []
  | S n' => start :: count_from (start + 1) n'
  end.

Definition py_range (start stop : Z) : list Z :=
  count_from start (Z.to_nat (stop - start)).

(** [xs[i:j]] for [0 <= i <= j] *)
Definition py_slice {A : Type} (xs : list A) (i j : Z) : list A :=
  firstn (Z.to_nat (j - i)) (skipn (Z.to_nat i) xs).

(** [c in s] for a one-character [c] *)
Fixpoint contains_char (c : ascii) (s : string) : bool :=
  match s with
  | EmptyString => false
  | String d s' => Ascii.eqb c d || contains_char c s'
  end.

Definition slash : ascii := ascii_of_nat 47.
Definition backslash : ascii := ascii_of_nat 92.
Definition star : ascii := ascii_of_nat 42.
Definition qmark : ascii := ascii_of_nat 63.

(** [s.replace(backslash, '/')] *)
Fixpoint replace_backslash (s : string) : string :=
  match s with
  | EmptyString => EmptyString
  | String c s' =>
      String (if Ascii.eqb c backslash then slash else c) (replace_backslash s')
  end.

(** [s.replace('//', '/')]: one left-to-right pass over non-overlapping
    occurrences, as [str.replace] does. *)
Fixpoint replace_double_slash (s : string) : string :=
  match s with
  | EmptyString => EmptyString
  | String c s' =>
      match s' with
      | String c' s'' =>
          if Ascii.eqb c slash && Ascii.eqb c' slash
          then String slash (replace_double_slash s'')
          else String c (replace_double_slash s')
      | EmptyString => String c EmptyString
      end
  end.

(** [s.split(sep)] for a one-character separator *)
Fixpoint split_on (sep : ascii) (s : string) : list string :=
  match s with
  | EmptyString => [EmptyString]
  | String c s' =>
      if Ascii.eqb c sep then EmptyString :: split_on sep s'
      else match split_on sep s' with
           | w :: ws => String c w :: ws
           | [] => [String c EmptyString]
           end
  end.

(** [os.path.normcase] on a POSIX platform returns its argument. *)
Definition posix_normcase (s : string) : string := s.

(** [fnmatch.fnmatchcase] for patterns made of literal characters, [?] and
    [*] (no bracket classes). *)
Fixpoint wildcard (pat : string) (name : string) {struct pat} : bool :=
  match pat with
  | EmptyString => match name with EmptyString => true | _ => false end
  | String c pat' =>
      if Ascii.eqb c star then
        (fix any_suffix (n : string) : bool :=
           wildcard pat' n ||
           match n with
           | EmptyString => false
           | String _ n' => any_suffix n'
           end) name
      else
        match name with
        | EmptyString => false
        | String d name' =>
            (Ascii.eqb c qmark || Ascii.eqb c d) && wildcard pat' name'
        end
  end.

(** [fnmatch.fnmatch(name, pat)] on POSIX *)
Definition posix_fnmatch (name pat : string) : bool :=
  wildcard (posix_normcase pat) (posix_normcase name).

(** ** class MatchType *)

Definition BIT_MATCH : Z := 1.
Definition BIT_ALL_SUBDIRECTORIES : Z := 2.
Definition BIT_NO_SUBDIRECTORIES : Z := 4.

Definition NO_MATCH : Z := 0.
Definition MATCH : Z := 1.
Definition MATCH_ALL_SUBDIRECTORIES : Z := Z.lor 1 2.
Definition MATCH_BUT_NO_SUBDIRECTORIES : Z := Z.lor 1 4.
Definition NO_MATCH_NO_SUBDIRECTORIES : Z := 4.

(** Truth value of a Python integer *)
Definition truthy (n : Z) : bool := negb (n =? 0).

(** ** class Matcher and its two subclasses *)

Inductive Matcher : Type :=
  | FNMatcher (pattern pp : string)
  | ConstantMatcher (pattern pp : string).

(** ** class Section *)

Record Sect : Type := mkSect {
  elements : list Matcher;
  bound_start : bool;
  bound_end : bool
}.

(** [self.length], set once by the constructor to [len(self.elements)] *)
Definition length_of (s : Sect) : Z := len (elements s).

(** ** class Pattern *)

Record Pattern : Type := mkPattern {
  sections : list Sect;
  p_bound_start : bool;
  p_bound_end : bool;
  file_pattern : string
}.

(** A reference to a [Pattern] object. [Pattern] defines no [__eq__], so
    [==] between two references compares the objects' identities. *)
Record PatternRef : Type := mkRef {
  address : nat;
  deref : Pattern
}.

Definition same_object (a b : PatternRef) : bool :=
  Nat.eqb (address a) (address b).

(** ** class PatternSet: [_all_files] is [None], [True] or [False] *)

Record PatternSet : Type := mkSet {
  patterns : list PatternRef;
  _all_files : option bool
}.

(** What [Pattern.create] returns *)
Inductive Compiled : Type :=
  | APattern (p : Pattern)
  | APatternSet (ps : PatternSet).

(** ** Sample data: compiled globs and inputs on which the theorems are
    exercised *)

(** A section of two matchers, neither end bound *)
Definition sample_section : Sect :=
  {| elements := [ConstantMatcher "a" "a"; FNMatcher "b*" "b*"];
     bound_start := false;
     bound_end := false |}.

(** The Pattern of the glob [**/a/**/b/*] *)
Definition glob_a_b : Pattern :=
  {| sections := [mkSect [ConstantMatcher "a" "a"] false false;
                  mkSect [ConstantMatcher "b" "b"] false true];
     p_bound_start := false;
     p_bound_end := true;
     file_pattern := "*" |}.

(** The Pattern of the glob [/test/*] *)
Definition glob_test : Pattern :=
  {| sections := [mkSect [ConstantMatcher "test" "test"] true true];
     p_bound_start := true;
     p_bound_end := true;
     file_pattern := "*" |}.

(** The first Pattern of the glob [**/build/**] *)
Definition glob_build : Pattern :=
  {| sections := [mkSect [ConstantMatcher "build" "build"] false false];
     p_bound_start := false;
     p_bound_end := false;
     file_pattern := "*" |}.

(** The Pattern of the glob [*.py] *)
Definition glob_py : Pattern :=
  {| sections := [];
     p_bound_start := false;
     p_bound_end := false;
     file_pattern := "*.py" |}.

(** The two Patterns of the glob [/src/**] *)
Definition glob_src_all : Pattern :=
  {| sections := [mkSect [ConstantMatcher "src" "src"] true false];
     p_bound_start := true;
     p_bound_end := false;
     file_pattern := "*" |}.

Definition glob_src_file : Pattern :=
  {| sections := [];
     p_bound_start := true;
     p_bound_end := true;
     file_pattern := "src" |}.

Section Engine.

(** The two library functions the module imports: [os.path.normcase] and
    [fnmatch.fnmatch(name, pattern)]. [fnmatch.filter(names, pattern)] keeps
    the names that [fnmatch] accepts. *)
Variable normcase : string -> string.
Variable fnmatch : string -> string -> bool.

Definition fnfilter (names : list string) (pat : string) : list string :=
  List.filter (fun name => fnmatch name pat) names.

(** *** Matcher *)

(** [Matcher.create(pattern)]; [Matcher.__init__] stores the normalised
    pattern and the pattern as written. *)
Definition Matcher_create (pattern : string) : Matcher :=
  if contains_char qmark pattern || contains_char star pattern
  then FNMatcher (normcase pattern) pattern
  else ConstantMatcher (normcase pattern) pattern.

Definition Matcher_match (m : Matcher) (s : string) : bool :=
  match m with
  | FNMatcher pattern _ => fnmatch s pattern
  | ConstantMatcher pattern _ => String.eqb pattern (normcase s)
  end.

(** *** Section *)

(** [Section.__init__(elements)]; the constructor asserts that [elements] is
    not empty, and [Pattern.__init__] only calls it on a non-empty fragment. *)
Definition Section_init (elems : list string) : Sect :=
  {| elements := map Matcher_create elems;
     bound_start := false;
     bound_end := false |}.

(** The inner loop of [_match_iter_generic]: [matched] after the matchers
    were tried on [path_elements[i]], [path_elements[i+1]], ... until one
    fails. *)
Fixpoint matchers_match (ms : list Matcher) (path_elements : list string)
    (i : Z) : result bool :=
  match ms with
  | [] => Ok true
  | matcher :: ms' =>
      let* element := py_index path_elements i in
      if negb (Matcher_match matcher element) then Ok false
      else matchers_match ms' path_elements (i + 1)
  end.

(** The values a generator's loop yields: [value index] for every index of
    the range on which [test] holds. The generator is run to its end. *)
Fixpoint yield_where (test : Z -> result bool) (value : Z -> Z)
    (indices : list Z) : result (list Z) :=
  match indices with
  | [] => Ok []
  | index :: rest =>
      let* matched := test index in
      let* more := yield_where test value rest in
      Ok (if matched then value index :: more else more)
  end.

Definition _match_iter_generic (self : Sect) (path_elements : list string)
    (start_at : Z) : result (list Z) :=
  let length := len path_elements in
  let stop := if bound_start self then 1 else length - length_of self + 1 in
  let start := if bound_end self then length - length_of self else start_at in
  if (start >? stop) || (start <? start_at) || (stop >? length - length_of self + 1)
  then Ok []
  else yield_where (fun index => matchers_match (elements self) path_elements index)
                   (fun index => index + length_of self)
                   (py_range start stop).

Definition _match_iter_single (self : Sect) (path_elements : list string)
    (start_at : Z) : result (list Z) :=
  let length := len path_elements in
  if length =? 0 then Ok []
  else
    let start := if bound_end self then length - 1 else start_at in
    if bound_end self && (start <? start_at) then Ok []
    else
      let stop := if bound_start self then 1 else length in
      if negb (bound_start self) && (start >? stop) then Ok []
      else yield_where
             (fun index =>
                let* element := py_index path_elements index in
                let* matcher := py_index (elements self) 0 in
                Ok (Matcher_match matcher element))
             (fun index => index + 1)
             (py_range start stop).

Definition match_iter (self : Sect) (path_elements : list string)
    (start_at : Z) : result (list Z) :=
  if length_of self =? 1
  then _match_iter_single self path_elements start_at
  else _match_iter_generic self path_elements start_at.

(** *** Pattern: compilation *)

Definition opt_is (previous : option string) (s : string) : bool :=
  match previous with
  | Some p => String.eqb p s
  | None => false
  end.

(** The loop of [Pattern._simplify] over [elements], with its two variables. *)
Fixpoint simplify_loop (elems simplified : list string)
    (previous : option string) : result (list string) :=
  match elems with
  | [] => Ok simplified
  | element :: rest =>
      if String.eqb element ".." then Raise PatternError
      else if String.eqb element "." then simplify_loop rest simplified previous
      else if String.eqb element "**" && opt_is previous "**"
      then simplify_loop rest simplified previous
      else simplify_loop rest (simplified ++ [normcase element]) (Some element)
  end.

Definition Pattern_simplify (elems : list string) : result (list string) :=
  let* simplified := simplify_loop elems [] None in
  let* last := py_index simplified (-1) in
  let simplified :=
    if String.eqb last EmptyString then removelast simplified ++ ["**"]
    else simplified in
  let* first := py_index simplified 0 in
  if String.eqb first EmptyString then Ok (tl simplified)
  else if negb (String.eqb first "**") then Ok ("**" :: simplified)
  else Ok simplified.

(** The loop of [Pattern.__init__] that cuts the directory part at every
    double star; [fragment] is the run collected so far. *)
Fixpoint split_sections (elems fragment : list string) : list Sect :=
  match elems with
  | [] => match fragment with [] => [] | _ => [Section_init fragment] end
  | element :: rest =>
      if String.eqb element "**"
      then match fragment with
           | [] => split_sections rest []
           | _ => Section_init fragment :: split_sections rest []
           end
      else split_sections rest (fragment ++ [element])
  end.

(** [self.sections[0].bound_start = True] *)
Definition bind_first (secs : list Sect) : list Sect :=
  match secs with
  | [] => []
  | s :: rest => mkSect (elements s) true (bound_end s) :: rest
  end.

(** [self.sections[-1].bound_end = True] *)
Fixpoint bind_last (secs : list Sect) : list Sect :=
  match secs with
  | [] => []
  | [s] => [mkSect (elements s) (bound_start s) true]
  | s :: rest => s :: bind_last rest
  end.

(** [Pattern.__init__(elements)] *)
Definition Pattern_init (elems : list string) : result Pattern :=
  let* first := py_index elems 0 in
  let bs := negb (String.eqb first "**") in
  let* last := py_index elems (-1) in
  let '(fp, elems) :=
    if negb (String.eqb last "**") then (normcase last, removelast elems)
    else ("*"%string, elems) in
  let* be :=
    match elems with
    | [] => Ok bs
    | _ => let* last := py_index elems (-1) in Ok (negb (String.eqb last "**"))
    end in
  let secs := split_sections elems [] in
  let secs := if bs then bind_first secs else secs in
  let secs := if be then bind_last secs else secs in
  Ok {| sections := secs; p_bound_start := bs; p_bound_end := be;
        file_pattern := fp |}.

(** [PatternSet.__init__] and [PatternSet.append] are needed by
    [Pattern.create]. *)
Definition Pattern_all_files (self : Pattern) : bool :=
  String.eqb (file_pattern self) "*".

Definition PatternSet_init : PatternSet :=
  {| patterns := []; _all_files := Some false |}.

Definition PatternSet_append (self : PatternSet) (pattern : PatternRef) : PatternSet :=
  {| patterns := patterns self ++ [pattern];
     _all_files :=
       match _all_files self with
       | Some b => Some (b || Pattern_all_files (deref pattern))
       | None => None
       end |}.

(** The glob after [glob.replace(backslash, '/').replace('//', '/')], cut at
    the separators. *)
Definition glob_elements (glob : string) : list string :=
  split_on slash (replace_double_slash (replace_backslash glob)).

(** [Pattern.create(glob)]. The two [Pattern] objects of the [PatternSet]
    branch are new objects: they are given the addresses [fresh] and
    [fresh + 1]. *)
Definition Pattern_create (fresh : nat) (glob : string) : result Compiled :=
  let* elems := Pattern_simplify (glob_elements glob) in
  let* two :=
    if len elems >? 1
    then let* last := py_index elems (-1) in Ok (String.eqb last "**")
    else Ok false in
  if two : bool then
    let* p1 := Pattern_init elems in
    let ps := PatternSet_append PatternSet_init (mkRef fresh p1) in
    let* p2 := Pattern_init (removelast elems) in
    let ps := PatternSet_append ps (mkRef (S fresh) p2) in
    Ok (APatternSet ps)
  else
    let* p := Pattern_init elems in
    Ok (APattern p).

(** *** Pattern: directory matching *)

(** The end of [match_recurse] when [sections] is empty: every section has
    been matched. *)
Definition found (self : Pattern) : Z :=
  if (len (sections self) =? 1) && p_bound_start self && p_bound_end self
  then MATCH_BUT_NO_SUBDIRECTORIES
  else if p_bound_end self then MATCH
  else MATCH_ALL_SUBDIRECTORIES.

(** The code of [match_recurse] after its loop (under the comment
    [No match found]). *)
Definition not_found (self : Pattern) (is_start any_match : bool)
    (section : Sect) (path_elements : list string) : result Z :=
  if is_start && p_bound_start self && negb any_match then
    if len path_elements >=? len (elements section)
    then Ok NO_MATCH_NO_SUBDIRECTORIES
    else
      if (length_of section >? len path_elements) && (len path_elements >? 0)
      then
        let* matcher := py_index (elements section) (len path_elements - 1) in
        let* last := py_index path_elements (-1) in
        if negb (Matcher_match matcher last)
        then Ok NO_MATCH_NO_SUBDIRECTORIES
        else Ok NO_MATCH
      else Ok NO_MATCH
  else Ok NO_MATCH.

(** [match_recurse], the private function of [match_directory]. The loop
    over the indices that [section.match_iter] yields is [loop]; its test is
    the source's [if match | MatchType.MATCH]. *)
Fixpoint match_recurse (self : Pattern) (is_start : bool) (secs : list Sect)
    (path_elements : list string) (location : Z) : result Z :=
  match secs with
  | section :: rest =>
      let* ends := match_iter section path_elements location in
      (fix loop (ends : list Z) (any_match : bool) : result Z :=
         match ends with
         | stop :: ends' =>
             let* verdict := match_recurse self false rest path_elements stop in
             if truthy (Z.lor verdict MATCH) then Ok verdict
             else loop ends' true
         | [] => not_found self is_start any_match section path_elements
         end) ends false
  | [] => Ok (found self)
  end.

Definition match_directory (self : Pattern) (path_elements : list string)
    : result Z :=
  match sections self with
  | _ :: _ => match_recurse self true (sections self) path_elements 0
  | [] =>
      if p_bound_start self then
        if len path_elements =? 0 then Ok MATCH_BUT_NO_SUBDIRECTORIES
        else Ok NO_MATCH_NO_SUBDIRECTORIES
      else Ok MATCH_ALL_SUBDIRECTORIES
  end.

(** *** Pattern: file matching *)

(** [self.file_filter], chosen by the constructor from [file_pattern] *)
Definition file_filter (self : Pattern) (files : list string) : list string :=
  if String.eqb (file_pattern self) "*" then files
  else if contains_char star (file_pattern self)
          || contains_char qmark (file_pattern self)
  then fnfilter files (file_pattern self)
  else List.filter (fun file => String.eqb (normcase file) (file_pattern self))
                   files.

(** [Pattern.match_files(matched, unmatched)]: both sets are updated in
    place; the pair returned is their contents after the call. *)
Definition Pattern_match_files (self : Pattern) (matched unmatched : gset string)
    : gset string * gset string :=
  let this_match : gset string :=
    list_to_set (file_filter self (base.elements unmatched)) in
  (matched ∪ this_match, unmatched ∖ this_match).

(** [Pattern.match_file(elements)] *)
Definition Pattern_match_file (self : Pattern) (elems : list string)
    : result bool :=
  let* verdict := match_directory self (removelast elems) in
  if truthy (Z.land verdict BIT_MATCH) then
    let* name := py_index elems (-1) in
    Ok (len (file_filter self [name]) >? 0)
  else Ok false.

(** *** PatternSet *)

(** [PatternSet.all_files()]: the value returned and the set afterwards
    (the cache is filled when it was unknown). *)
Definition PatternSet_all_files (self : PatternSet) : bool * PatternSet :=
  match _all_files self with
  | Some b => (b, self)
  | None =>
      let b := existsb (fun pat => Pattern_all_files (deref pat)) (patterns self) in
      (b, {| patterns := patterns self; _all_files := Some b |})
  end.

(** The three kinds of argument [PatternSet.extend] accepts *)
Inductive ExtendArg : Type :=
  | OnePattern (p : PatternRef)
  | OtherSet (ps : PatternSet)
  | PatternList (l : list PatternRef).

Definition PatternSet_extend (self : PatternSet) (arg : ExtendArg) : PatternSet :=
  match arg with
  | OnePattern p => PatternSet_append self p
  | OtherSet ps =>
      {| patterns := patterns self ++ patterns ps; _all_files := None |}
  | PatternList l =>
      {| patterns := patterns self ++ l; _all_files := None |}
  end.

(** [list.remove(x)]: drops the first item equal to [x]; [None] stands for
    the [ValueError] raised when there is none. *)
Fixpoint list_remove {A : Type} (same : A -> A -> bool) (x : A) (l : list A)
    : option (list A) :=
  match l with
  | [] => None
  | y :: l' =>
      if same y x then Some l'
      else match list_remove same x l' with
           | Some r => Some (y :: r)
           | None => None
           end
  end.

(** [PatternSet.remove(pattern)]: the set afterwards and how the call ended. *)
Definition PatternSet_remove (self : PatternSet) (pattern : PatternRef)
    : PatternSet * result unit :=
  match list_remove same_object pattern (patterns self) with
  | Some l => ({| patterns := l; _all_files := None |}, Ok tt)
  | None => (self, Raise ValueError)
  end.

(** [PatternSet.iter()]: a copy of the list is walked. *)
Definition PatternSet_iter (self : PatternSet) : list PatternRef := patterns self.

(** The loop of [PatternSet.match_files] *)
Fixpoint match_files_loop (pats : list PatternRef) (matched unmatched : gset string)
    : gset string * gset string :=
  match pats with
  | [] => (matched, unmatched)
  | pattern :: rest =>
      let '(matched', unmatched') :=
        Pattern_match_files (deref pattern) matched unmatched in
      if bool_decide (unmatched' = ∅) then (matched', unmatched')
      else match_files_loop rest matched' unmatched'
  end.

Definition PatternSet_match_files (self : PatternSet) (matched unmatched : gset string)
    : gset string * gset string :=
  match_files_loop (PatternSet_iter self) matched unmatched.

Definition PatternSet_empty (self : PatternSet) : bool := len (patterns self) =? 0.

(** ** The contract of [Section.match_iter], in the words of its docstring *)

(** The matchers match the elements as they are naturally paired. *)
Fixpoint pairwise (ms : list Matcher) (elems : list string) : bool :=
  match ms, elems with
  | [], _ => true
  | m :: ms', e :: elems' => Matcher_match m e && pairwise ms' elems'
  | _ :: _, [] => false
  end.

(** [j] is a start index at which [self] matches [path_elements], searching
    from [start_at]. *)
Definition candidate (self : Sect) (path_elements : list string)
    (start_at j : Z) : bool :=
  (start_at <=? j)
  && (j + length_of self <=? len path_elements)
  && implb (bound_start self) (j =? 0)
  && implb (bound_end self) (j =? len path_elements - length_of self)
  && pairwise (elements self) (py_slice path_elements j (j + length_of self)).

(** The end indices of the candidates, in ascending order. *)
Definition match_ends (self : Sect) (path_elements : list string)
    (start_at : Z) : list Z :=
  map (fun j => j + length_of self)
      (List.filter (candidate self path_elements start_at)
                   (py_range 0 (len path_elements + 1))).

(** ** The search of [match_directory], as the specification words it *)

(** [match_recurse] with the return check the specification gives it: a
    verdict is returned from the loop only when its MATCH bit is set, and a
    verdict without it lets the loop go on to the next yielded index. *)
Fixpoint search_first_match (self : Pattern) (is_start : bool)
    (secs : list Sect) (path_elements : list string) (location : Z)
    : result Z :=
  match secs with
  | section :: rest =>
      let* ends := match_iter section path_elements location in
      (fix loop (ends : list Z) (any_match : bool) : result Z :=
         match ends with
         | stop :: ends' =>
             let* verdict :=
               search_first_match self false rest path_elements stop in
             if truthy (Z.land verdict BIT_MATCH) then Ok verdict
             else loop ends' true
         | [] => not_found self is_start any_match section path_elements
         end) ends false
  | [] => Ok (found self)
  end.

(** Some choice of end indices, each yielded by the next section's
    [match_iter] from the previous one, consumes all the sections. *)
Fixpoint consumes (path_elements : list string) (secs : list Sect)
    (location : Z) : Prop :=
  match secs with
  | [] => True
  | section :: rest =>
      exists ends stop,
        match_iter section path_elements location = Ok ends
        /\ In stop ends
        /\ consumes path_elements rest stop
  end.

(** The same, decided over the contract of [match_iter]. *)
Fixpoint reachable (path_elements : list string) (secs : list Sect)
    (location : Z) : bool :=
  match secs with
  | [] => true
  | section :: rest =>
      existsb (reachable path_elements rest)
              (match_ends section path_elements location)
  end.

(** ** The bound flags of a compiled Pattern *)

(** The sections after the first are not bound at the start, and only the
    last section can be bound at the end. *)
Fixpoint inner_flags (be : bool) (secs : list Sect) : Prop :=
  match secs with
  | [] => True
  | s :: rest =>
      bound_start s = false
      /\ bound_end s = match rest with [] => be | _ :: _ => false end
      /\ inner_flags be rest
  end.

(** What [Pattern.__init__] establishes when it propagates the bounds. *)
Definition flags_ok (p : Pattern) : Prop :=
  match sections p with
  | [] => True
  | s :: rest =>
      bound_start s = p_bound_start p
      /\ bound_end s = match rest with [] => p_bound_end p | _ :: _ => false end
      /\ inner_flags (p_bound_end p) rest
  end.

(** A section as [Section.__init__] leaves it *)
Definition unbound (s : Sect) : Prop :=
  bound_start s = false /\ bound_end s = false.

(** ** The file names a Pattern selects, and the PatternSets a caller can build *)

(** The set [this_match] of [Pattern.match_files]: the file filter applied
    to a set of names. *)
Definition file_matches (self : Pattern) (files : gset string) : gset string :=
  list_to_set (file_filter self (base.elements files)).

(** The states of a [PatternSet] after its constructor and any sequence of
    calls of [append], [extend] and [remove], with calls of [all_files] in
    between. *)
Inductive constructed : PatternSet -> Prop :=
  | constructed_init : constructed PatternSet_init
  | constructed_append s p :
      constructed s -> constructed (PatternSet_append s p)
  | constructed_extend s arg :
      constructed s -> constructed (PatternSet_extend s arg)
  | constructed_remove s p :
      constructed s -> constructed (fst (PatternSet_remove s p))
  | constructed_all_files s :
      constructed s -> constructed (snd (PatternSet_all_files s)).

(** [any(pat.all_files() for pat in self.patterns)] *)
Definition any_all_files (pats : list PatternRef) : bool :=
  existsb (fun pat => Pattern_all_files (deref pat)) pats.

(** The cache, when it holds a value, holds the disjunction over the members. *)
Definition cache_ok (s : PatternSet) : Prop :=
  forall b, _all_files s = Some b -> b = any_all_files (patterns s).

(** ** The rest of the module: equality and string forms, single-file matching *)

(** [self.pattern] and [self.pp] of a [Matcher] *)
Definition Matcher_pattern (m : Matcher) : string :=
  match m with
  | FNMatcher pattern _ => pattern
  | ConstantMatcher pattern _ => pattern
  end.

Definition Matcher_pp (m : Matcher) : string :=
  match m with
  | FNMatcher _ pp => pp
  | ConstantMatcher _ pp => pp
  end.

(** [isinstance(other, type(self))] for two matchers: the two subclasses are
    siblings. *)
Definition isinstance_of (other self : Matcher) : bool :=
  match other, self with
  | FNMatcher _ _, FNMatcher _ _ => true
  | ConstantMatcher _ _, ConstantMatcher _ _ => true
  | _, _ => false
  end.

(** [Matcher.__eq__] and [Matcher.__ne__] *)
Definition Matcher_eq (self other : Matcher) : bool :=
  isinstance_of other self
  && String.eqb (Matcher_pattern self) (Matcher_pattern other).

Definition Matcher_ne (self other : Matcher) : bool :=
  negb (isinstance_of other self)
  || negb (String.eqb (Matcher_pattern self) (Matcher_pattern other)).

(** [Matcher.__str__] *)
Definition Matcher_str (self : Matcher) : string := Matcher_pp self.

(** [sep.join(items)] *)
Fixpoint join (sep : string) (items : list string) : string :=
  match items with
  | [] => EmptyString
  | [x] => x
  | x :: rest => String.append x (String.append sep (join sep rest))
  end.

(** [Section.str], set by the constructor, and [Section.__eq__] *)
Definition Section_str (self : Sect) : string :=
  join "/" (map Matcher_str (elements self)).

Definition Section_eq (self other : Sect) : bool :=
  String.eqb (Section_str self) (Section_str other).

(** [Pattern._to_string()], the body of [__str__] and [__repr__] *)
Definition Pattern_to_string (self : Pattern) : string :=
  let '(start, secs, stop) :=
    match sections self with
    | _ :: _ =>
        (if p_bound_start self then "/"%string else "**/"%string,
         join "/**/" (map Section_str (sections self)),
         if p_bound_end self then EmptyString else "/**"%string)
    | [] =>
        (EmptyString, EmptyString,
         if p_bound_end self then EmptyString else "**"%string)
    end in
  String.append start
    (String.append secs
       (String.append stop (String.append "/" (file_pattern self)))).

(** [PatternSet.match_file(elements)] *)
Fixpoint match_file_loop (pats : list PatternRef) (elems : list string)
    : result bool :=
  match pats with
  | [] => Ok false
  | pattern :: rest =>
      let* hit := Pattern_match_file (deref pattern) elems in
      if hit then Ok true else match_file_loop rest elems
  end.

Definition PatternSet_match_file (self : PatternSet) (elems : list string)
    : result bool :=
  match_file_loop (PatternSet_iter self) elems.

(** ** The elements a Pattern's string form is made of *)

(** The runs of elements between double stars, as the loop of
    [Pattern.__init__] collects them. *)
Fixpoint fragments (elems fragment : list string) : list (list string) :=
  match elems with
  | [] => match fragment with [] => [] | _ => [fragment] end
  | element :: rest =>
      if String.eqb element "**"
      then match fragment with
           | [] => fragments rest []
           | _ => fragment :: fragments rest []
           end
      else fragments rest (fragment ++ [element])
  end.

(** The runs put back in one list, a double star between two runs. *)
Fixpoint interleave (frags : list (list string)) : list string :=
  match frags with
  | [] => []
  | [f] => f
  | f :: rest => f ++ "**"%string :: interleave rest
  end.

(** A component that a glob can hold between two separators and that
    [_simplify] keeps. *)
Definition plain_component (e : string) : Prop :=
  contains_char slash e = false
  /\ contains_char backslash e = false
  /\ e <> EmptyString /\ e <> "."%string /\ e <> ".."%string.

(** No two slashes side by side *)
Fixpoint single_slashes (s : string) : bool :=
  match s with
  | EmptyString => true
  | String a s' =>
      match s' with
      | EmptyString => true
      | String b _ =>
          negb (Ascii.eqb a slash && Ascii.eqb b slash) && single_slashes s'
      end
  end.

(** No two double stars side by side; [after_star] tells whether the element
    before the list is one. *)
Fixpoint stars_apart (after_star : bool) (l : list string) : Prop :=
  match l with
  | [] => True
  | e :: rest =>
      (String.eqb e "**" = true -> after_star = false)
      /\ stars_apart (String.eqb e "**") rest
  end.

(** A string that does not begin with a slash *)
Definition no_leading_slash (s : string) : bool :=
  match s with
  | EmptyString => false
  | String a _ => negb (Ascii.eqb a slash)
  end.

(** A run of elements that [Pattern.__init__] turns into a section: not
    empty and without a double star. *)
Definition run (f : list string) : Prop :=
  f <> [] /\ forall e, In e f -> e <> "**"%string.

(** The elements of the directory part of a Pattern's string form, and the
    elements of the whole string form after the leading separator. *)
Definition directory_elements (bs be : bool) (frags : list (list string))
    : list string :=
  (if bs then [] else ["**"%string])
  ++ interleave frags
  ++ (if be then []
      else match frags with [] => [] | _ :: _ => ["**"%string] end).

(** The two bindings of [Pattern.__init__], in its order *)
Definition bind_sections (bs be : bool) (secs : list Sect) : list Sect :=
  let secs := if bs then bind_first secs else secs in
  if be then bind_last secs else secs.

(** *** The walk over a list of file names *)

(** [branch.split('/', 1)]: the text before the first slash, and the text
    after it when there is a slash.  Python returns a list of one or of two
    strings. *)
Fixpoint split_once (branch : string) : string * option string :=
  match branch with
  | EmptyString => (EmptyString, None)
  | String c rest =>
      if Ascii.eqb c slash then (EmptyString, Some rest)
      else let '(node, others) := split_once rest in (String c node, others)
  end.

(** The tree of [list_to_tree]: a dictionary that holds the list of file
    names under the key [FILE_MARKER] and one sub-tree under the name of
    each directory, in the order of insertion. *)
#[warnings="-register-all"]
Inductive Tree : Type :=
  | Node (files : list string) (dirs : list (string * Tree)).

Definition tree_files (tree : Tree) : list string :=
  match tree with Node files _ => files end.

Definition tree_dirs (tree : Tree) : list (string * Tree) :=
  match tree with Node _ dirs => dirs end.

(** [defaultdict(dict, ((FILE_MARKER, []),))] *)
Definition new_tree : Tree := Node [] [].

(** [if node not in trunk: trunk[node] = ...] followed by a change of
    [trunk[node]] in place: a new key goes to the end. *)
Fixpoint at_node (node : string) (change : Tree -> Tree)
    (dirs : list (string * Tree)) : list (string * Tree) :=
  match dirs with
  | [] => [(node, change new_tree)]
  | (name, sub) :: rest =>
      if String.eqb name node then (name, change sub) :: rest
      else (name, sub) :: at_node node change rest
  end.

Definition inspect {A : Type} (a : A) : {b : A | a = b} := exist _ a eq_refl.

(** [attach] calls itself on the text after the first slash, which is
    shorter than the branch. *)
Equations attach (branch : string) (trunk : Tree) : Tree
  by wf (String.length branch) lt :=
attach branch (Node files dirs) with inspect (split_once branch) := {
  | exist _ (pair file None) _ => Node (files ++ [file]) dirs
  | exist _ (pair node (Some others)) _ =>
      Node files (at_node node (fun sub => attach others sub) dirs) }.
Next Obligation.
  clear attach files dirs.
  match goal with H : split_once _ = _ |- _ => rename H into E end.
  revert node E. induction branch as [|c rest IH]; intros node; [discriminate|].
  cbn [split_once String.length]. destruct (Ascii.eqb c slash).
  - intros [= <- <-]. lia.
  - destruct (split_once rest) as [n o]. intros [= <- ->].
    specialize (IH n eq_refl). lia.
Qed.

Definition list_to_tree (files : list string) : Tree :=
  fold_left (fun tree line => attach line tree) files new_tree.

Section Walk.

(** [os.path.join] depends on the platform. *)
Variable path_join : string -> string -> string.

(** The keys of a dictionary come in the order of insertion. *)
Fixpoint tree_walk (directory : string) (tree : Tree)
    : list (string * list string * list string) :=
  match tree with
  | Node files dirs =>
      (directory, map fst dirs, files)
      :: flat_map (fun d => tree_walk (path_join directory (fst d)) (snd d))
                  dirs
  end.

Definition walk_from_list (files : list string) (directory : string)
    : list (string * list string * list string) :=
  tree_walk directory (list_to_tree files).

End Walk.

(** [attach] on the components of a branch *)
Fixpoint attach_parts (parts : list string) (trunk : Tree) : Tree :=
  match parts with
  | [] => trunk
  | [file] => Node (tree_files trunk ++ [file]) (tree_dirs trunk)
  | node :: others =>
      Node (tree_files trunk)
           (at_node node (attach_parts others) (tree_dirs trunk))
  end.

(** The tree holds the file [name] under the directories [ds]. *)
Fixpoint holds (ds : list string) (name : string) (tree : Tree) : Prop :=
  match ds with
  | [] => In name (tree_files tree)
  | d :: ds' => exists sub, In (d, sub) (tree_dirs tree) /\ holds ds' name sub
  end.

(** Every file name of a tree *)
Fixpoint tree_all_files (tree : Tree) : list string :=
  match tree with
  | Node files dirs => files ++ flat_map (fun d => tree_all_files (snd d)) dirs
  end.

(** The file names of a walk, tuple after tuple *)
Definition walk_files (results : list (string * list string * list string))
    : list string :=
  flat_map snd results.

(** No directory has two sub-trees of one name. *)
#[warnings="-register-all"]
Inductive well_keyed : Tree -> Prop :=
  | well_keyed_node files dirs :
      List.NoDup (map fst dirs) ->
      Forall (fun d => well_keyed (snd d)) dirs ->
      well_keyed (Node files dirs).

(** The name of the file of a path, and the directories above it *)
Definition file_name (line : string) : string :=
  List.last (split_on slash line) EmptyString.

Definition directories (line : string) : list string :=
  removelast (split_on slash line).

(** [os.path.join] of two components on a POSIX platform *)
Fixpoint ends_with_slash (s : string) : bool :=
  match s with
  | EmptyString => false
  | String c EmptyString => Ascii.eqb c slash
  | String _ rest => ends_with_slash rest
  end.

Definition starts_with_slash (s : string) : bool :=
  match s with
  | EmptyString => false
  | String c _ => Ascii.eqb c slash
  end.

Definition posix_join (a b : string) : string :=
  if starts_with_slash b then b
  else if String.eqb a EmptyString || ends_with_slash a then String.append a b
  else String.append a (String.append "/" b).

(** * Properties of the engine *)

(** ** Ranges, indexing and filters *)

Lemma count_from_In (n : nat) : forall a i, In i (count_from a n) <-> a <= i < a + Z.of_nat n.
Proof.
  induction n as [|n IH]; intros a i; simpl.
  - lia.
  - rewrite IH. lia.
Qed.

Lemma count_from_app (n m : nat) : forall a,
  count_from a (n + m) = count_from a n ++ count_from (a + Z.of_nat n) m.
Proof.
  induction n as [|n IH]; intros a; simpl.
  - f_equal. lia.
  - rewrite IH. do 3 f_equal. lia.
Qed.

Lemma py_range_In a b i : In i (py_range a b) <-> a <= i < b.
Proof. unfold py_range. rewrite count_from_In. lia. Qed.

Lemma py_range_split a c b : a <= c <= b ->
  py_range a b = py_range a c ++ py_range c b.
Proof.
  intros H. unfold py_range.
  replace (Z.to_nat (b - a)) with (Z.to_nat (c - a) + Z.to_nat (b - c))%nat by lia.
  rewrite count_from_app. do 2 f_equal. lia.
Qed.

Lemma py_range_empty a b : b <= a -> py_range a b = [].
Proof. intros H. unfold py_range. replace (Z.to_nat (b - a)) with O by lia. reflexivity. Qed.

Lemma filter_none {A} (P : A -> bool) l :
  (forall x, In x l -> P x = false) -> List.filter P l = [].
Proof.
  induction l as [|x l IH]; simpl; intros H; [reflexivity|].
  rewrite (H x) by auto. apply IH. auto.
Qed.

Lemma filter_window (P Q : Z -> bool) a b lo hi :
  a <= lo -> hi <= b ->
  (forall j, a <= j < b -> P j = (lo <=? j) && (j <? hi) && Q j) ->
  List.filter P (py_range a b) = List.filter Q (py_range lo hi).
Proof.
  intros Ha Hb HP.
  destruct (Z_le_gt_dec hi lo) as [Hle|Hgt].
  - rewrite (py_range_empty lo hi) by lia. simpl. apply filter_none.
    intros j Hj. apply py_range_In in Hj. rewrite HP by lia.
    destruct (Z.leb_spec lo j), (Z.ltb_spec j hi); simpl; try reflexivity; lia.
  - rewrite (py_range_split a lo b) by lia. rewrite (py_range_split lo hi b) by lia.
    rewrite !List.filter_app.
    rewrite (filter_none P (py_range a lo)), (filter_none P (py_range hi b)).
    + rewrite app_nil_r. simpl. apply List.filter_ext_in.
      intros j Hj. apply py_range_In in Hj. rewrite HP by lia.
      destruct (Z.leb_spec lo j), (Z.ltb_spec j hi); simpl; try reflexivity; lia.
    + intros j Hj. apply py_range_In in Hj. rewrite HP by lia.
      destruct (Z.ltb_spec j hi); [lia|]. now rewrite andb_false_r.
    + intros j Hj. apply py_range_In in Hj. rewrite HP by lia.
      destruct (Z.leb_spec lo j); [lia|]. reflexivity.
Qed.

Lemma py_index_ok {A} (xs : list A) i :
  0 <= i < len xs ->
  exists x, nth_error xs (Z.to_nat i) = Some x /\ py_index xs i = Ok x.
Proof.
  intros H. unfold py_index.
  destruct (Z.ltb_spec i 0); [lia|].
  destruct (Z.leb_spec 0 i); [|lia].
  destruct (Z.ltb_spec i (len xs)); [|lia]. simpl.
  destruct (nth_error xs (Z.to_nat i)) as [x|] eqn:E.
  - eauto.
  - apply nth_error_None in E. unfold len in H. lia.
Qed.

(** ** Section.match_iter *)

Lemma pairwise_firstn ms : forall l,
  pairwise ms (firstn (List.length ms) l) = pairwise ms l.
Proof.
  induction ms as [|m ms IH]; intros [|e l]; simpl; try reflexivity.
  now rewrite IH.
Qed.

Lemma skipn_S_nth {A} (l : list A) n x :
  nth_error l n = Some x -> skipn n l = x :: skipn (S n) l.
Proof.
  revert l. induction n as [|n IH]; intros [|y l] H; simpl in *; try discriminate.
  - now inversion H.
  - now apply IH.
Qed.

Lemma matchers_match_ok path_elements ms : forall j,
  0 <= j -> j + len ms <= len path_elements ->
  matchers_match ms path_elements j
  = Ok (pairwise ms (py_slice path_elements j (j + len ms))).
Proof.
  unfold py_slice.
  induction ms as [|m ms IH]; intros j Hj Hlen.
  - reflexivity.
  - unfold len in *. simpl List.length in *.
    destruct (py_index_ok path_elements j) as (x & Hx & Hi); [unfold len; lia|].
    simpl matchers_match. rewrite Hi. simpl bind.
    replace (Z.to_nat (j + Z.of_nat (S (List.length ms)) - j)) with (S (List.length ms)) by lia.
    rewrite (skipn_S_nth _ _ _ Hx). simpl firstn. simpl pairwise.
    destruct (Matcher_match m x); simpl; [|reflexivity].
    rewrite IH by lia.
    replace (Z.to_nat (j + 1 + Z.of_nat (List.length ms) - (j + 1))) with (List.length ms) by lia.
    replace (Z.to_nat (j + 1)) with (S (Z.to_nat j)) by lia.
    reflexivity.
Qed.

Lemma yield_where_ok test value (f : Z -> bool) indices :
  (forall i, In i indices -> test i = Ok (f i)) ->
  yield_where test value indices = Ok (map value (List.filter f indices)).
Proof.
  induction indices as [|i l IH]; intros H; simpl.
  - reflexivity.
  - rewrite (H i) by (now left). simpl.
    rewrite IH by (intros; apply H; now right). simpl.
    now destruct (f i).
Qed.

Lemma candidate_window self path_elements start_at lo hi :
  (forall j, 0 <= j < len path_elements + 1 ->
     (start_at <=? j) && (j + length_of self <=? len path_elements)
     && implb (bound_start self) (j =? 0)
     && implb (bound_end self) (j =? len path_elements - length_of self)
     = (lo <=? j) && (j <? hi)) ->
  0 <= lo -> hi <= len path_elements + 1 ->
  match_ends self path_elements start_at
  = map (fun j => j + length_of self)
        (List.filter (fun j => pairwise (elements self)
                                 (py_slice path_elements j (j + length_of self)))
                     (py_range lo hi)).
Proof.
  intros H Hlo Hhi. unfold match_ends. f_equal.
  apply filter_window; try assumption.
  intros j Hj. unfold candidate. now rewrite H.
Qed.

Lemma candidate_none self path_elements start_at :
  (forall j, 0 <= j < len path_elements + 1 ->
     (start_at <=? j) && (j + length_of self <=? len path_elements)
     && implb (bound_start self) (j =? 0)
     && implb (bound_end self) (j =? len path_elements - length_of self)
     = false) ->
  match_ends self path_elements start_at = [].
Proof.
  intros H. unfold match_ends. rewrite filter_none; [reflexivity|].
  intros j Hj. apply py_range_In in Hj. unfold candidate. now rewrite H.
Qed.

Ltac bool_arith :=
  repeat match goal with
  | |- context [?a <=? ?b] => destruct (Z.leb_spec a b)
  | |- context [?a <? ?b] => destruct (Z.ltb_spec a b)
  | |- context [?a >? ?b] => rewrite (Z.gtb_ltb a b)
  | |- context [?a >=? ?b] => rewrite (Z.geb_leb a b)
  | |- context [?a =? ?b] => destruct (Z.eqb_spec a b)
  end; simpl; intros; try discriminate; try reflexivity; try lia.

Lemma _match_iter_generic_ok self path_elements start_at :
  0 <= start_at ->
  _match_iter_generic self path_elements start_at
  = Ok (match_ends self path_elements start_at).
Proof.
  intros Hs. unfold _match_iter_generic.
  assert (Hk : 0 <= length_of self) by (unfold length_of, len; lia).
  assert (HL : 0 <= len path_elements) by (unfold len; lia).
  set (L := len path_elements) in *. set (k := length_of self) in *.
  set (stop := if bound_start self then 1 else L - k + 1).
  set (start := if bound_end self then L - k else start_at).
  destruct ((start >? stop) || (start <? start_at) || (stop >? L - k + 1)) eqn:G.
  - f_equal. symmetry. apply candidate_none. fold L k. intros j Hj.
    subst start stop. revert G.
    destruct (bound_start self), (bound_end self); simpl; bool_arith.
  - rewrite (yield_where_ok _ _ (fun j => pairwise (elements self) (py_slice path_elements j (j + k)))).
    + f_equal. symmetry. apply candidate_window; fold L k.
      * intros j Hj. subst start stop. revert G.
        destruct (bound_start self), (bound_end self); simpl; bool_arith.
      * subst start stop. revert G. destruct (bound_end self); simpl; bool_arith.
      * subst start stop. revert G. destruct (bound_start self); simpl; bool_arith.
    + intros i Hi. apply py_range_In in Hi. apply matchers_match_ok.
      * subst start stop. revert G Hi. destruct (bound_end self); simpl; bool_arith.
      * change (len (elements self)) with k. subst start stop. revert G Hi.
        destruct (bound_start self), (bound_end self); simpl; bool_arith.
Qed.
Lemma length_one {A} (l : list A) : len l = 1 -> exists x, l = [x].
Proof.
  destruct l as [|x [|y l]]; unfold len; simpl; intros H; try lia.
  now exists x.
Qed.

Lemma _match_iter_single_ok self path_elements start_at :
  0 <= start_at -> length_of self = 1 ->
  _match_iter_single self path_elements start_at
  = Ok (match_ends self path_elements start_at).
Proof.
  intros Hs Hk1. unfold _match_iter_single.
  destruct (length_one _ Hk1) as [m Hm].
  assert (HL : 0 <= len path_elements) by (unfold len; lia).
  set (L := len path_elements) in *.
  destruct (Z.eqb_spec L 0) as [HL0|HL0].
  { f_equal. symmetry. apply candidate_none. fold L. rewrite Hk1. intros j Hj.
    bool_arith. }
  set (start := if bound_end self then L - 1 else start_at).
  destruct (bound_end self && (start <? start_at)) eqn:G1.
  { f_equal. symmetry. apply candidate_none. fold L. rewrite Hk1. intros j Hj.
    subst start. revert G1.
    destruct (bound_start self), (bound_end self); simpl; bool_arith. }
  set (stop := if bound_start self then 1 else L).
  destruct (negb (bound_start self) && (start >? stop)) eqn:G2.
  { f_equal. symmetry. apply candidate_none. fold L. rewrite Hk1. intros j Hj.
    subst start stop. revert G1 G2.
    destruct (bound_start self), (bound_end self); simpl; bool_arith. }
  rewrite (yield_where_ok _ _ (fun j => pairwise (elements self) (py_slice path_elements j (j + 1)))).
  - f_equal. symmetry.
    rewrite (candidate_window _ _ _ start stop); fold L; rewrite ?Hk1.
    + reflexivity.
    + intros j Hj. subst start stop. revert G1 G2.
      destruct (bound_start self), (bound_end self); simpl; bool_arith.
    + subst start stop. revert G1 G2. destruct (bound_end self); simpl; bool_arith.
    + subst start stop. revert G1 G2. destruct (bound_start self); simpl; bool_arith.
  - intros i Hi. apply py_range_In in Hi.
    assert (Hr : 0 <= i < L).
    { subst start stop. revert G1 G2 Hi.
      destruct (bound_start self), (bound_end self); simpl; bool_arith. }
    destruct (py_index_ok path_elements i Hr) as (x & Hx & Hix).
    pose proof (matchers_match_ok path_elements [m] i) as M.
    change (len [m]) with 1 in M. simpl matchers_match in M.
    rewrite Hm, Hix. rewrite Hix in M. simpl bind in *.
    change (py_index [m] 0) with (Ok m). simpl bind.
    specialize (M ltac:(lia) ltac:(lia)).
    rewrite <- M. now destruct (Matcher_match m x).
Qed.

Lemma match_iter_ok self path_elements start_at :
  0 <= start_at ->
  match_iter self path_elements start_at
  = Ok (match_ends self path_elements start_at).
Proof.
  intros Hs. unfold match_iter.
  destruct (Z.eqb_spec (length_of self) 1) as [H|H].
  - now apply _match_iter_single_ok.
  - now apply _match_iter_generic_ok.
Qed.
Lemma pairwise_Forall2 ms : forall l,
  List.length l = List.length ms ->
  (pairwise ms l = true <-> Forall2 (fun m e => Matcher_match m e = true) ms l).
Proof.
  induction ms as [|m ms IH]; intros [|e l] Hlen; simpl in *; try discriminate.
  - split; [constructor | reflexivity].
  - rewrite andb_true_iff, IH by lia. split.
    + intros [H1 H2]. now constructor.
    + intros H. inversion H; subst. now split.
Qed.

Lemma py_slice_length {A} (xs : list A) j k :
  0 <= j -> 0 <= k -> j + k <= len xs ->
  List.length (py_slice xs j (j + k)) = Z.to_nat k.
Proof.
  intros Hj Hk H. unfold py_slice, len in *.
  rewrite length_firstn, length_skipn. lia.
Qed.

Lemma count_from_sorted n : forall a, StronglySorted Z.lt (count_from a n).
Proof.
  induction n as [|n IH]; intros a; simpl; constructor.
  - apply IH.
  - apply List.Forall_forall. intros i Hi. apply count_from_In in Hi. lia.
Qed.

Lemma filter_sorted (P : Z -> bool) l :
  StronglySorted Z.lt l -> StronglySorted Z.lt (List.filter P l).
Proof.
  induction 1 as [|x l Hs IH Hx]; simpl; [constructor|].
  destruct (P x); [|assumption].
  constructor; [assumption|].
  apply List.Forall_forall. intros y Hy. apply List.filter_In in Hy.
  rewrite List.Forall_forall in Hx. now apply Hx.
Qed.

Lemma shift_sorted k l :
  StronglySorted Z.lt l -> StronglySorted Z.lt (map (fun j => j + k) l).
Proof.
  induction 1 as [|x l Hs IH Hx]; simpl; constructor; [assumption|].
  rewrite List.Forall_forall in *. intros y Hy.
  apply List.in_map_iff in Hy. destruct Hy as (z & <- & Hz).
  specialize (Hx z Hz). lia.
Qed.

Lemma match_ends_sorted self path_elements start_at :
  StronglySorted Z.lt (match_ends self path_elements start_at).
Proof.
  unfold match_ends. apply shift_sorted, filter_sorted, count_from_sorted.
Qed.

Lemma match_ends_In self path_elements start_at i :
  0 <= start_at ->
  In i (match_ends self path_elements start_at) <->
  exists j, i = j + length_of self
    /\ candidate self path_elements start_at j = true.
Proof.
  intros Hs. unfold match_ends. rewrite List.in_map_iff. split.
  - intros (j & <- & Hj). apply List.filter_In in Hj. exists j. tauto.
  - intros (j & -> & Hj). exists j. split; [reflexivity|].
    apply List.filter_In. split; [|assumption].
    apply py_range_In. unfold candidate in Hj.
    assert (0 <= length_of self) by (unfold length_of, len; lia).
    rewrite !andb_true_iff in Hj. destruct Hj as ((((H1 & H2) & _) & _) & _).
    apply Z.leb_le in H1, H2. lia.
Qed.

(** C7. For a section of length k, a path of length L and start_at >= 0,
    match_iter yields, in strictly ascending order, exactly the values j + k
    for the start indices j with j >= start_at, j + k <= L, j = 0 when
    bound_start, j = L - k when bound_end, and every matcher matching its
    paired element of path_elements[j : j + k]; the generic path yields this
    list for every length and the single-element path yields it for length 1. *)
Theorem match_iter_contract (self : Sect) (path_elements : list string)
    (start_at : Z) :
  0 <= start_at ->
  exists ends,
    match_iter self path_elements start_at = Ok ends
    /\ StronglySorted Z.lt ends
    /\ (forall i, In i ends <->
          exists j, i = j + length_of self
            /\ start_at <= j
            /\ j + length_of self <= len path_elements
            /\ (bound_start self = true -> j = 0)
            /\ (bound_end self = true -> j = len path_elements - length_of self)
            /\ Forall2 (fun m e => Matcher_match m e = true) (elements self)
                 (py_slice path_elements j (j + length_of self)))
    /\ _match_iter_generic self path_elements start_at = Ok ends
    /\ (length_of self = 1 ->
        _match_iter_single self path_elements start_at = Ok ends).
Proof.
  intros Hs. exists (match_ends self path_elements start_at).
  split; [now apply match_iter_ok|].
  split; [apply match_ends_sorted|].
  split; [|split; [now apply _match_iter_generic_ok
                  | intros; now apply _match_iter_single_ok]].
  intros i. rewrite match_ends_In by assumption.
  assert (Hk : 0 <= length_of self) by (unfold length_of, len; lia).
  split.
  - intros (j & -> & Hc). exists j. split; [reflexivity|].
    unfold candidate in Hc. rewrite !andb_true_iff in Hc.
    destruct Hc as ((((H1 & H2) & H3) & H4) & H5).
    apply Z.leb_le in H1, H2.
    repeat split; try assumption.
    + intros Hb. rewrite Hb in H3. now apply Z.eqb_eq in H3.
    + intros Hb. rewrite Hb in H4. now apply Z.eqb_eq in H4.
    + apply pairwise_Forall2; [|assumption].
      rewrite py_slice_length by lia. unfold length_of, len. lia.
  - intros (j & -> & H1 & H2 & H3 & H4 & H5). exists j. split; [reflexivity|].
    unfold candidate. rewrite !andb_true_iff. repeat split.
    + now apply Z.leb_le.
    + now apply Z.leb_le.
    + destruct (bound_start self); [|reflexivity]. apply Z.eqb_eq. now apply H3.
    + destruct (bound_end self); [|reflexivity]. apply Z.eqb_eq. now apply H4.
    + apply pairwise_Forall2; [|assumption].
      rewrite py_slice_length by lia. unfold length_of, len. lia.
Qed.

(** ** Pattern.__init__ propagates the bounds *)


Lemma split_sections_unbound elems : forall fragment,
  Forall unbound (split_sections elems fragment).
Proof.
  induction elems as [|e elems IH]; intros fragment; simpl.
  - destruct fragment; repeat constructor.
  - destruct (String.eqb e "**").
    + destruct fragment; [apply IH|]. constructor; [split; reflexivity | apply IH].
    + apply IH.
Qed.

Lemma inner_flags_unbound secs :
  Forall unbound secs -> inner_flags false secs.
Proof.
  induction 1 as [|s rest [H1 H2] _ IH]; simpl; [exact I|].
  repeat split; try assumption. now destruct rest.
Qed.

Lemma inner_flags_bind_last secs :
  Forall unbound secs -> inner_flags true (bind_last secs).
Proof.
  induction 1 as [|s rest [H1 H2] Hr IH]; simpl; [exact I|].
  destruct rest as [|s' [|s'' rest]]; simpl in *; intuition.
Qed.

Lemma flags_ok_bound (secs : list Sect) (bs be : bool) (fp : string) :
  Forall unbound secs ->
  flags_ok {| sections := (if be then bind_last
                                  (if bs then bind_first secs else secs)
                           else (if bs then bind_first secs else secs));
              p_bound_start := bs; p_bound_end := be; file_pattern := fp |}.
Proof.
  intros H. unfold flags_ok. simpl.
  destruct H as [|s rest [H1 H2] Hr]; [destruct be, bs; exact I|].
  assert (Hi : inner_flags be (if be then bind_last rest else rest)).
  { destruct be; [now apply inner_flags_bind_last | now apply inner_flags_unbound]. }
  destruct bs, be, rest as [|s' [|s'' rest]]; simpl in *; intuition.
Qed.

Lemma Pattern_init_flags elems p :
  Pattern_init elems = Ok p -> flags_ok p.
Proof.
  unfold Pattern_init. intros H.
  destruct (py_index elems 0) as [first|]; unfold bind in H at 1; [|discriminate].
  destruct (py_index elems (-1)) as [last|]; unfold bind in H at 1; [|discriminate].
  destruct (negb (String.eqb last "**")).
  - destruct (removelast elems) as [|e0 l0] eqn:E; unfold bind in H.
    + injection H as <-. apply (flags_ok_bound (@nil Sect)). constructor.
    + destruct (py_index (e0 :: l0) (-1)); [|discriminate].
      injection H as <-. apply flags_ok_bound.
      apply (split_sections_unbound (e0 :: l0) []).
  - destruct elems as [|e0 l0]; unfold bind in H.
    + injection H as <-. apply (flags_ok_bound (@nil Sect)). constructor.
    + destruct (py_index (e0 :: l0) (-1)); [|discriminate].
      injection H as <-. apply flags_ok_bound.
      apply (split_sections_unbound (e0 :: l0) []).
Qed.

(** ** The recursive search of match_directory *)

Lemma truthy_lor_MATCH v : truthy (Z.lor v MATCH) = true.
Proof.
  unfold truthy, MATCH. destruct (Z.eqb_spec (Z.lor v 1) 0) as [H|H]; [|reflexivity].
  apply Z.lor_eq_0_iff in H. lia.
Qed.

Lemma found_has_match self : Z.land (found self) BIT_MATCH = 1.
Proof.
  unfold found.
  destruct ((len (sections self) =? 1) && p_bound_start self && p_bound_end self);
    [reflexivity|].
  destruct (p_bound_end self); reflexivity.
Qed.

Lemma candidate_antitone self path_elements loc loc' j :
  loc' <= loc ->
  candidate self path_elements loc j = true ->
  candidate self path_elements loc' j = true.
Proof.
  intros Hle. unfold candidate. rewrite !andb_true_iff, !Z.leb_le.
  intuition lia.
Qed.

Lemma match_ends_antitone self path_elements loc loc' stop :
  0 <= loc' <= loc ->
  In stop (match_ends self path_elements loc) ->
  In stop (match_ends self path_elements loc').
Proof.
  intros Hle. rewrite !match_ends_In by lia.
  intros (j & -> & Hc). exists j. split; [reflexivity|].
  apply (candidate_antitone _ _ loc); [lia | assumption].
Qed.

Lemma match_ends_ge self path_elements loc stop :
  0 <= loc ->
  In stop (match_ends self path_elements loc) -> loc <= stop.
Proof.
  intros Hl. rewrite match_ends_In by assumption. intros (j & -> & Hc).
  unfold candidate in Hc. rewrite !andb_true_iff, !Z.leb_le in Hc.
  assert (0 <= length_of self) by (unfold length_of, len; lia). lia.
Qed.

Lemma reachable_antitone path_elements secs loc loc' :
  0 <= loc' <= loc ->
  reachable path_elements secs loc = true ->
  reachable path_elements secs loc' = true.
Proof.
  intros Hle. destruct secs as [|s rest]; simpl; [reflexivity|].
  rewrite !existsb_exists. intros (stop & Hin & Hr). exists stop.
  split; [|assumption]. now apply (match_ends_antitone _ _ loc).
Qed.

(** The first index yielded decides: when a later yielded index leads to a
    match, so does the first. *)
Lemma first_branch_decides path_elements s rest loc stop ends :
  0 <= loc ->
  match_ends s path_elements loc = stop :: ends ->
  existsb (reachable path_elements rest) (stop :: ends)
  = reachable path_elements rest stop.
Proof.
  intros Hl E. simpl.
  destruct (reachable path_elements rest stop) eqn:R; [reflexivity|]. simpl.
  destruct (existsb (reachable path_elements rest) ends) eqn:X; [|reflexivity].
  apply existsb_exists in X. destruct X as (stop' & Hin & Hr).
  pose proof (match_ends_sorted s path_elements loc) as S.
  rewrite E in S. inversion S as [|? ? _ Hall]; subst.
  rewrite List.Forall_forall in Hall. specialize (Hall _ Hin).
  assert (loc <= stop).
  { apply (match_ends_ge s path_elements); [assumption|]. rewrite E. now left. }
  rewrite (reachable_antitone path_elements rest stop' stop) in R; [| lia | assumption].
  discriminate.
Qed.

Lemma not_found_inner self any_match section path_elements :
  not_found self false any_match section path_elements = Ok NO_MATCH.
Proof. reflexivity. Qed.

Lemma not_found_any self is_start section path_elements :
  not_found self is_start true section path_elements = Ok NO_MATCH.
Proof. unfold not_found. now rewrite andb_false_r. Qed.

Lemma match_recurse_inner self path_elements secs : forall loc,
  0 <= loc ->
  match_recurse self false secs path_elements loc
  = Ok (if reachable path_elements secs loc then found self else NO_MATCH).
Proof.
  induction secs as [|s rest IH]; intros loc Hl; [reflexivity|].
  simpl match_recurse. rewrite match_iter_ok by assumption. simpl bind.
  cbn [reachable].
  destruct (match_ends s path_elements loc) as [|stop ends] eqn:E.
  - reflexivity.
  - rewrite (first_branch_decides _ s rest loc) by assumption.
    assert (loc <= stop).
    { apply (match_ends_ge s path_elements); [assumption|]. rewrite E. now left. }
    rewrite IH by lia. simpl bind. now rewrite truthy_lor_MATCH.
Qed.

Lemma truthy_found self : truthy (Z.land (found self) BIT_MATCH) = true.
Proof. now rewrite found_has_match. Qed.

Lemma search_first_match_inner self path_elements secs : forall loc,
  0 <= loc ->
  search_first_match self false secs path_elements loc
  = Ok (if reachable path_elements secs loc then found self else NO_MATCH).
Proof.
  induction secs as [|s rest IH]; intros loc Hl; [reflexivity|].
  simpl search_first_match. rewrite match_iter_ok by assumption. simpl bind.
  cbn [reachable].
  assert (Hge : forall stop, In stop (match_ends s path_elements loc) -> 0 <= stop).
  { intros stop Hin. apply match_ends_ge in Hin; lia. }
  match goal with |- ?loop _ false = _ =>
    assert (HL : forall ends any_match,
      (forall stop, In stop ends -> 0 <= stop) ->
      loop ends any_match
      = Ok (if existsb (reachable path_elements rest) ends
            then found self else NO_MATCH))
  end.
  { induction ends as [|stop ends IHe]; intros any_match Hpos.
    - reflexivity.
    - rewrite IH by (apply Hpos; now left). simpl bind. simpl existsb.
      destruct (reachable path_elements rest stop); simpl.
      + now rewrite truthy_found.
      + apply IHe. intros; apply Hpos; now right. }
  now apply HL.
Qed.
Lemma py_index_last {A} (xs : list A) :
  0 < len xs ->
  exists x, nth_error xs (Z.to_nat (len xs - 1)) = Some x
            /\ py_index xs (-1) = Ok x.
Proof.
  intros H. destruct (py_index_ok xs (len xs - 1)) as (x & Hx & Hi); [lia|].
  exists x. split; [assumption|].
  unfold py_index in *. simpl (-1 <? 0).
  destruct (Z.ltb_spec (len xs - 1) 0); [lia|].
  replace (len xs + -1) with (len xs - 1) by lia. assumption.
Qed.

(** What the code after the loop returns, and when it prunes. *)
Lemma not_found_ok self is_start any_match s path_elements :
  exists v,
    not_found self is_start any_match s path_elements = Ok v
    /\ (v = NO_MATCH
        \/ v = NO_MATCH_NO_SUBDIRECTORIES
           /\ is_start = true /\ p_bound_start self = true /\ any_match = false
           /\ (len (elements s) <= len path_elements
               \/ 0 < len path_elements < len (elements s)
                  /\ exists m e,
                       nth_error (elements s) (Z.to_nat (len path_elements - 1)) = Some m
                       /\ nth_error path_elements (Z.to_nat (len path_elements - 1)) = Some e
                       /\ Matcher_match m e = false)).
Proof.
  unfold not_found.
  destruct is_start, (p_bound_start self), any_match; simpl;
    try (exists NO_MATCH; split; [reflexivity | now left]).
  rewrite Z.geb_leb.
  destruct (Z.leb_spec (len (elements s)) (len path_elements)) as [H|H].
  { exists NO_MATCH_NO_SUBDIRECTORIES. split; [reflexivity|]. right. tauto. }
  unfold length_of. rewrite !Z.gtb_ltb.
  destruct (Z.ltb_spec (len path_elements) (len (elements s))); [|lia].
  destruct (Z.ltb_spec 0 (len path_elements)) as [H1|H1]; simpl.
  - destruct (py_index_ok (elements s) (len path_elements - 1)) as (m & Hm & ->); [lia|].
    destruct (py_index_last path_elements H1) as (e & He & ->). simpl.
    destruct (Matcher_match m e) eqn:M; simpl.
    + exists NO_MATCH. split; [reflexivity | now left].
    + exists NO_MATCH_NO_SUBDIRECTORIES. split; [reflexivity|]. right.
      repeat split; try reflexivity. right. split; [lia|]. now exists m, e.
  - exists NO_MATCH. split; [reflexivity | now left].
Qed.

Lemma match_recurse_root self path_elements s rest :
  match_recurse self true (s :: rest) path_elements 0
  = if reachable path_elements (s :: rest) 0 then Ok (found self)
    else match match_ends s path_elements 0 with
         | [] => not_found self true false s path_elements
         | _ :: _ => Ok NO_MATCH
         end.
Proof.
  simpl match_recurse. rewrite match_iter_ok by lia. simpl bind.
  cbn [reachable].
  destruct (match_ends s path_elements 0) as [|stop ends] eqn:E.
  - reflexivity.
  - rewrite (first_branch_decides _ s rest 0) by (assumption || lia).
    assert (0 <= stop).
    { apply (match_ends_ge s path_elements); [lia|]. rewrite E. now left. }
    rewrite match_recurse_inner by assumption. simpl bind.
    rewrite truthy_lor_MATCH. now destruct (reachable path_elements rest stop).
Qed.

Lemma search_first_match_root self path_elements s rest :
  search_first_match self true (s :: rest) path_elements 0
  = if reachable path_elements (s :: rest) 0 then Ok (found self)
    else match match_ends s path_elements 0 with
         | [] => not_found self true false s path_elements
         | _ :: _ => Ok NO_MATCH
         end.
Proof.
  simpl search_first_match. rewrite match_iter_ok by lia. simpl bind.
  cbn [reachable].
  assert (Hge : forall stop, In stop (match_ends s path_elements 0) -> 0 <= stop).
  { intros stop Hin. now apply match_ends_ge in Hin. }
  match goal with |- ?loop _ false = _ =>
    assert (HL : forall ends any_match,
      (forall stop, In stop ends -> 0 <= stop) ->
      loop ends any_match
      = if existsb (reachable path_elements rest) ends then Ok (found self)
        else not_found self true
               (any_match || match ends with [] => false | _ :: _ => true end)
               s path_elements)
  end.
  { induction ends as [|stop ends IHe]; intros any_match Hpos.
    - now rewrite orb_false_r.
    - rewrite search_first_match_inner by (apply Hpos; now left).
      simpl bind. simpl existsb.
      destruct (reachable path_elements rest stop); simpl.
      + now rewrite truthy_found.
      + rewrite IHe by (intros; apply Hpos; now right).
        destruct (existsb (reachable path_elements rest) ends); [reflexivity|].
        rewrite orb_true_r. simpl. now rewrite !not_found_any. }
  rewrite HL by assumption.
  destruct (match_ends s path_elements 0); simpl; [reflexivity|].
  destruct (_ || _); [reflexivity|]. apply not_found_any.
Qed.

Lemma consumes_reachable path_elements secs : forall loc,
  0 <= loc ->
  (consumes path_elements secs loc <-> reachable path_elements secs loc = true).
Proof.
  induction secs as [|s rest IH]; intros loc Hl; simpl; [tauto|].
  rewrite existsb_exists. split.
  - intros (ends & stop & Hm & Hin & Hc).
    rewrite match_iter_ok in Hm by assumption. injection Hm as <-.
    exists stop. split; [assumption|]. apply IH; [|assumption].
    apply match_ends_ge in Hin; lia.
  - intros (stop & Hin & Hr).
    exists (match_ends s path_elements loc), stop.
    split; [now apply match_iter_ok|]. split; [assumption|].
    apply IH; [|assumption]. apply match_ends_ge in Hin; lia.
Qed.

Lemma match_directory_sections self path_elements s rest :
  sections self = s :: rest ->
  match_directory self path_elements
  = if reachable path_elements (sections self) 0 then Ok (found self)
    else match match_ends s path_elements 0 with
         | [] => not_found self true false s path_elements
         | _ :: _ => Ok NO_MATCH
         end.
Proof.
  intros E. unfold match_directory. rewrite E. apply match_recurse_root.
Qed.
(** C1. For a Pattern with non-empty sections (every compiled Pattern with
    sections is one) and every list of path components, match_directory
    returns a verdict; its MATCH bit is set if and only if some choice of end
    indices yielded by the successive sections' match_iter consumes all the
    sections; the verdict is the one of the search that returns the verdict
    of the first branch whose MATCH bit is set and goes on to the remaining
    yielded indices after a branch without the MATCH bit; at the root, a
    branch with the MATCH bit that follows branches without it gives the
    verdict returned. *)
Theorem match_directory_first_match (self : Pattern)
    (path_elements : list string) :
  sections self <> [] ->
  exists verdict,
    match_directory self path_elements = Ok verdict
    /\ (Z.land verdict BIT_MATCH <> 0
        <-> consumes path_elements (sections self) 0)
    /\ search_first_match self true (sections self) path_elements 0
       = Ok verdict
    /\ (forall s rest ends before stop after v,
          sections self = s :: rest ->
          match_iter s path_elements 0 = Ok ends ->
          ends = before ++ stop :: after ->
          (forall e, In e before ->
             exists v0, match_recurse self false rest path_elements e = Ok v0
                        /\ Z.land v0 BIT_MATCH = 0) ->
          match_recurse self false rest path_elements stop = Ok v ->
          Z.land v BIT_MATCH <> 0 ->
          verdict = v).
Proof.
  intros Hne. destruct (sections self) as [|s0 rest0] eqn:E; [congruence|].
  rewrite <- E.
  pose proof (match_directory_sections self path_elements s0 rest0 E) as MD.
  pose proof (search_first_match_root self path_elements s0 rest0) as SF.
  rewrite <- E in SF.
  pose proof (consumes_reachable path_elements (sections self) 0 ltac:(lia)) as CR.
  assert (Hstop : forall ends before stop after,
            match_iter s0 path_elements 0 = Ok ends ->
            ends = before ++ stop :: after ->
            In stop (match_ends s0 path_elements 0) /\ 0 <= stop).
  { intros ends before stop after Hm Hends.
    rewrite match_iter_ok in Hm by lia. injection Hm as <-.
    assert (Hin : In stop (match_ends s0 path_elements 0)).
    { rewrite Hends. apply in_or_app. right. now left. }
    split; [assumption|]. apply match_ends_ge in Hin; lia. }
  destruct (reachable path_elements (sections self) 0) eqn:R.
  - exists (found self). split; [assumption|]. split.
    + rewrite found_has_match, CR. split; [reflexivity | lia].
    + split; [assumption|].
      intros s rest ends before stop after v Es Hm Hends _ Hv Hbit.
      rewrite E in Es. injection Es as <- <-.
      destruct (Hstop _ _ _ _ Hm Hends) as [_ Hpos].
      rewrite match_recurse_inner in Hv by assumption.
      destruct (reachable path_elements rest0 stop); injection Hv as <-;
        [reflexivity | now compute in Hbit].
  - assert (Hv : exists v, match_directory self path_elements = Ok v
                           /\ Z.land v BIT_MATCH = 0).
    { rewrite MD. destruct (match_ends s0 path_elements 0).
      - destruct (not_found_ok self true false s0 path_elements)
          as (v & -> & [-> | (-> & _)]); eexists; split; reflexivity.
      - eexists; split; reflexivity. }
    destruct Hv as (v & Hv & Hbit). exists v. split; [assumption|]. split.
    + rewrite Hbit, CR. split; [lia | discriminate].
    + split; [now rewrite SF, <- MD|].
      intros s rest ends before stop after v' Es Hm Hends _ Hv' Hbit'.
      exfalso. rewrite E in Es. injection Es as <- <-.
      destruct (Hstop _ _ _ _ Hm Hends) as [Hin Hpos].
      rewrite match_recurse_inner in Hv' by assumption.
      rewrite E in R. simpl in R.
      destruct (reachable path_elements rest0 stop) eqn:R';
        injection Hv' as <-; [|now compute in Hbit'].
      assert (X : existsb (reachable path_elements rest0)
                    (match_ends s0 path_elements 0) = true).
      { apply existsb_exists. now exists stop. }
      congruence.
Qed.

(** ** Extending the directory *)

Lemma len_app {A} (xs ys : list A) : len (xs ++ ys) = len xs + len ys.
Proof. unfold len. rewrite List.length_app. lia. Qed.

Lemma len_nonneg {A} (xs : list A) : 0 <= len xs.
Proof. unfold len. lia. Qed.

Lemma len_tail_pos {A} (xs : list A) : xs <> [] -> 0 < len xs.
Proof. destruct xs; [congruence|]. unfold len. simpl. lia. Qed.

Lemma py_slice_app {A} (xs ys : list A) j k :
  0 <= j -> 0 <= k -> j + k <= len xs ->
  py_slice (xs ++ ys) j (j + k) = py_slice xs j (j + k).
Proof.
  intros Hj Hk H. unfold py_slice, len in *.
  rewrite List.skipn_app, List.firstn_app, List.length_skipn.
  replace (Z.to_nat (j + k - j) - (List.length xs - Z.to_nat j))%nat with O by lia.
  replace (Z.to_nat j - List.length xs)%nat with O by lia.
  simpl. now rewrite app_nil_r.
Qed.

Lemma candidate_inv self path_elements loc j :
  candidate self path_elements loc j = true ->
  loc <= j
  /\ j + length_of self <= len path_elements
  /\ (bound_start self = true -> j = 0)
  /\ (bound_end self = true -> j = len path_elements - length_of self)
  /\ pairwise (elements self) (py_slice path_elements j (j + length_of self)) = true.
Proof.
  unfold candidate. rewrite !andb_true_iff, !Z.leb_le.
  intros ((((H1 & H2) & H3) & H4) & H5). repeat split; try assumption.
  - intros Hb. rewrite Hb in H3. now apply Z.eqb_eq.
  - intros Hb. rewrite Hb in H4. now apply Z.eqb_eq.
Qed.

Lemma candidate_intro self path_elements loc j :
  loc <= j ->
  j + length_of self <= len path_elements ->
  (bound_start self = true -> j = 0) ->
  (bound_end self = true -> j = len path_elements - length_of self) ->
  pairwise (elements self) (py_slice path_elements j (j + length_of self)) = true ->
  candidate self path_elements loc j = true.
Proof.
  intros H1 H2 H3 H4 H5. unfold candidate.
  rewrite !andb_true_iff, !Z.leb_le. repeat split; try assumption.
  - destruct (bound_start self); [|reflexivity]. apply Z.eqb_eq. now apply H3.
  - destruct (bound_end self); [|reflexivity]. apply Z.eqb_eq. now apply H4.
Qed.

(** A section that is not bound at the end still matches where it did. *)
Lemma candidate_extend self d tail loc j :
  0 <= loc -> bound_end self = false ->
  candidate self d loc j = true ->
  candidate self (d ++ tail) loc j = true.
Proof.
  intros Hl Hbe Hc. apply candidate_inv in Hc.
  destruct Hc as (H1 & H2 & H3 & _ & H5).
  pose proof (len_nonneg tail). pose proof (len_nonneg (elements self)).
  apply candidate_intro; try assumption.
  - rewrite len_app. lia.
  - rewrite Hbe. discriminate.
  - rewrite py_slice_app; unfold length_of in *; [assumption | lia | lia | lia].
Qed.

Lemma reachable_extend d tail secs : forall loc,
  0 <= loc ->
  Forall (fun s => bound_end s = false) secs ->
  reachable d secs loc = true ->
  reachable (d ++ tail) secs loc = true.
Proof.
  induction secs as [|s rest IH]; intros loc Hl Hall; simpl; [reflexivity|].
  inversion Hall as [|? ? Hs Hrest]; subst.
  rewrite !existsb_exists. intros (stop & Hin & Hr).
  exists stop. split.
  - apply match_ends_In in Hin; [|assumption]. apply match_ends_In; [assumption|].
    destruct Hin as (j & -> & Hc). exists j. split; [reflexivity|].
    now apply candidate_extend.
  - apply IH; try assumption. apply match_ends_ge in Hin; lia.
Qed.

Lemma inner_flags_open secs :
  inner_flags false secs -> Forall (fun s => bound_end s = false) secs.
Proof.
  induction secs as [|s rest IH]; simpl; [constructor|].
  intros (_ & H2 & H3). constructor; [|now apply IH].
  now destruct rest.
Qed.

Lemma flags_ok_open self :
  flags_ok self -> p_bound_end self = false ->
  Forall (fun s => bound_end s = false) (sections self).
Proof.
  unfold flags_ok. intros H Hbe. destruct (sections self) as [|s rest]; [constructor|].
  destruct H as (_ & H2 & H3). rewrite Hbe in *.
  constructor; [now destruct rest | now apply inner_flags_open].
Qed.

Lemma found_all_subdirectories self :
  Z.land (found self) BIT_ALL_SUBDIRECTORIES <> 0 -> p_bound_end self = false.
Proof.
  unfold found.
  destruct ((len (sections self) =? 1) && p_bound_start self && p_bound_end self);
    [now compute|].
  destruct (p_bound_end self); [now compute | reflexivity].
Qed.

Lemma no_match_bits v :
  v = NO_MATCH \/ v = NO_MATCH_NO_SUBDIRECTORIES ->
  Z.land v BIT_MATCH = 0 /\ Z.land v BIT_ALL_SUBDIRECTORIES = 0.
Proof. intros [-> | ->]; split; reflexivity. Qed.

(** The verdict when the search fails carries neither M nor A. *)
Lemma match_directory_unreachable self path_elements s rest :
  sections self = s :: rest ->
  reachable path_elements (sections self) 0 = false ->
  exists v, match_directory self path_elements = Ok v
            /\ Z.land v BIT_MATCH = 0
            /\ Z.land v BIT_ALL_SUBDIRECTORIES = 0.
Proof.
  intros E R. rewrite (match_directory_sections _ _ _ _ E), R.
  destruct (match_ends s path_elements 0).
  - destruct (not_found_ok self true false s path_elements) as (v & -> & Hv).
    exists v. split; [reflexivity|]. apply no_match_bits. tauto.
  - exists NO_MATCH. repeat split.
Qed.

(** C3. Descendant completeness: when match_directory on d returns a verdict
    with the ALL_SUBDIRECTORIES bit, match_directory on d followed by any
    tail of components returns a verdict with the MATCH bit. *)
Theorem descendant_completeness (elems : list string) (self : Pattern)
    (d : list string) (verdict : Z) :
  Pattern_init elems = Ok self ->
  match_directory self d = Ok verdict ->
  Z.land verdict BIT_ALL_SUBDIRECTORIES <> 0 ->
  forall tail, exists verdict',
    match_directory self (d ++ tail) = Ok verdict'
    /\ Z.land verdict' BIT_MATCH <> 0.
Proof.
  intros Hinit Hd Hbit tail. apply Pattern_init_flags in Hinit.
  destruct (sections self) as [|s rest] eqn:E.
  - unfold match_directory in *. rewrite E in *.
    destruct (p_bound_start self).
    + destruct (len d =? 0); injection Hd as <-; now compute in Hbit.
    + exists MATCH_ALL_SUBDIRECTORIES. split; [reflexivity | now compute].
  - destruct (reachable d (sections self) 0) eqn:R.
    + rewrite (match_directory_sections _ _ _ _ E), R in Hd. injection Hd as <-.
      apply found_all_subdirectories in Hbit.
      exists (found self). split; [|rewrite found_has_match; lia].
      rewrite (match_directory_sections _ _ _ _ E).
      rewrite reachable_extend; [reflexivity | lia | | assumption].
      now apply flags_ok_open.
    + destruct (match_directory_unreachable _ _ _ _ E R) as (v & Hv & _ & HA).
      congruence.
Qed.
Lemma pairwise_nth ms : forall l n m e,
  pairwise ms l = true ->
  nth_error ms n = Some m -> nth_error l n = Some e ->
  Matcher_match m e = true.
Proof.
  induction ms as [|m0 ms IH]; intros [|e0 l] [|n] m e Hp Hm He;
    simpl in *; try discriminate.
  - injection Hm as <-. injection He as <-.
    now apply andb_true_iff in Hp.
  - apply andb_true_iff in Hp. now apply (IH l n).
Qed.

Lemma match_ends_nil self path_elements loc :
  0 <= loc ->
  (forall j, candidate self path_elements loc j = false) ->
  match_ends self path_elements loc = [].
Proof.
  intros Hl H. destruct (match_ends self path_elements loc) as [|stop ends] eqn:E;
    [reflexivity|].
  assert (Hin : In stop (match_ends self path_elements loc)) by (rewrite E; now left).
  apply match_ends_In in Hin; [|assumption].
  destruct Hin as (j & _ & Hc). rewrite H in Hc. discriminate.
Qed.

Lemma match_ends_nil_candidate self path_elements loc j :
  0 <= loc ->
  match_ends self path_elements loc = [] ->
  candidate self path_elements loc j = false.
Proof.
  intros Hl E. destruct (candidate self path_elements loc j) eqn:C; [|reflexivity].
  assert (Hin : In (j + length_of self) (match_ends self path_elements loc)).
  { apply match_ends_In; [assumption|]. now exists j. }
  rewrite E in Hin. destruct Hin.
Qed.

(** A section bound at both ends matches a directory of its own length only. *)
Lemma both_bound_longer self d tail :
  bound_start self = true -> bound_end self = true ->
  match_ends self d 0 <> [] -> tail <> [] ->
  match_ends self (d ++ tail) 0 = [].
Proof.
  intros Hbs Hbe Hne Htail.
  destruct (match_ends self d 0) as [|stop ends] eqn:E; [congruence|].
  assert (Hin : In stop (match_ends self d 0)) by (rewrite E; now left).
  apply match_ends_In in Hin; [|lia]. destruct Hin as (j & _ & Hc).
  apply candidate_inv in Hc. destruct Hc as (_ & _ & H3 & H4 & _).
  specialize (H3 Hbs). specialize (H4 Hbe).
  apply match_ends_nil; [lia|]. intros j'.
  destruct (candidate self (d ++ tail) 0 j') eqn:C; [|reflexivity].
  apply candidate_inv in C. destruct C as (_ & _ & H3' & H4' & _).
  specialize (H3' Hbs). specialize (H4' Hbe).
  rewrite len_app in H4'. apply len_tail_pos in Htail. lia.
Qed.

(** An anchored first section that found no match and pruned finds none in
    any longer directory. *)
Lemma pruned_stays_unmatched self d tail :
  bound_start self = true ->
  match_ends self d 0 = [] ->
  len (elements self) <= len d
  \/ (0 < len d < len (elements self)
      /\ exists m e,
           nth_error (elements self) (Z.to_nat (len d - 1)) = Some m
           /\ nth_error d (Z.to_nat (len d - 1)) = Some e
           /\ Matcher_match m e = false) ->
  tail <> [] ->
  match_ends self (d ++ tail) 0 = [].
Proof.
  intros Hbs E Hprune Htail.
  apply match_ends_nil; [lia|]. intros j.
  destruct (candidate self (d ++ tail) 0 j) eqn:C; [|reflexivity]. exfalso.
  apply candidate_inv in C. destruct C as (_ & H2 & H3 & H4 & H5).
  specialize (H3 Hbs). subst j.
  pose proof (len_tail_pos tail Htail) as Ht.
  pose proof (len_nonneg (elements self)) as Hk.
  rewrite len_app in *. unfold length_of in *.
  destruct Hprune as [Hge | (Hlt & m & e & Hm & He & Hmatch)].
  - rewrite py_slice_app in H5 by lia.
    destruct (bound_end self) eqn:Hbe.
    + specialize (H4 eq_refl). lia.
    + pose proof (match_ends_nil_candidate self d 0 0 ltac:(lia) E) as C.
      assert (C' : candidate self d 0 0 = true).
      { apply candidate_intro; unfold length_of; try lia; try assumption.
        rewrite Hbe. discriminate. }
      congruence.
  - assert (Hn : nth_error (py_slice (d ++ tail) 0 (0 + len (elements self)))
                   (Z.to_nat (len d - 1)) = Some e).
    { unfold py_slice.
      replace (skipn (Z.to_nat 0) (d ++ tail)) with (d ++ tail) by reflexivity.
      rewrite List.nth_error_firstn.
      destruct (PeanoNat.Nat.ltb_spec (Z.to_nat (len d - 1))
                  (Z.to_nat (0 + len (elements self) - 0))); [|lia].
      rewrite List.nth_error_app1; [assumption|]. unfold len in *. lia. }
    rewrite (pairwise_nth _ _ _ _ _ H5 Hm Hn) in Hmatch. discriminate.
Qed.

Lemma found_no_subdirectories self :
  Z.land (found self) BIT_NO_SUBDIRECTORIES <> 0 ->
  len (sections self) = 1 /\ p_bound_start self = true /\ p_bound_end self = true.
Proof.
  unfold found.
  destruct (Z.eqb_spec (len (sections self)) 1) as [H|H];
    destruct (p_bound_start self), (p_bound_end self); simpl;
    intros X; try (now compute in X); tauto.
Qed.

(** C2. Prune soundness: when match_directory on d returns a verdict with the
    NO_SUBDIRECTORIES bit, match_directory on d followed by any non-empty
    tail of components returns a verdict without the MATCH bit. *)
Theorem prune_soundness (elems : list string) (self : Pattern)
    (d : list string) (verdict : Z) :
  Pattern_init elems = Ok self ->
  match_directory self d = Ok verdict ->
  Z.land verdict BIT_NO_SUBDIRECTORIES <> 0 ->
  forall tail, tail <> [] ->
    exists verdict',
      match_directory self (d ++ tail) = Ok verdict'
      /\ Z.land verdict' BIT_MATCH = 0.
Proof.
  intros Hinit Hd Hbit tail Htail. apply Pattern_init_flags in Hinit.
  destruct (sections self) as [|s rest] eqn:E.
  - unfold match_directory in *. rewrite E in *.
    destruct (p_bound_start self).
    + exists NO_MATCH_NO_SUBDIRECTORIES. split; [|reflexivity].
      rewrite len_app. apply len_tail_pos in Htail. pose proof (len_nonneg d).
      destruct (Z.eqb_spec (len d + len tail) 0); [lia | reflexivity].
    + injection Hd as <-. now compute in Hbit.
  - assert (Hnil : match_ends s (d ++ tail) 0 = []).
    { unfold flags_ok in Hinit. rewrite E in Hinit.
      destruct Hinit as (Hbs & Hbe & _).
      rewrite (match_directory_sections _ _ _ _ E) in Hd.
      destruct (reachable d (sections self) 0) eqn:R.
      - injection Hd as <-. apply found_no_subdirectories in Hbit.
        destruct Hbit as (Hone & Hs & He).
        rewrite E in Hone, R. destruct rest as [|s' rest'];
          [|unfold len in Hone; simpl in Hone; lia].
        apply both_bound_longer; try congruence.
        simpl in R. destruct (match_ends s d 0); [discriminate | congruence].
      - destruct (match_ends s d 0) eqn:Ends; [|injection Hd as <-; now compute in Hbit].
        destruct (not_found_ok self true false s d) as (v & Hv & Hcase).
        rewrite Hv in Hd. injection Hd as ->.
        destruct Hcase as [-> | (_ & _ & Hs & _ & Hprune)]; [now compute in Hbit|].
        apply pruned_stays_unmatched; try assumption. congruence. }
    destruct (match_directory_unreachable self (d ++ tail) s rest E) as (v & Hv & HM & _).
    + rewrite E. simpl. now rewrite Hnil.
    + now exists v.
Qed.

(** ** Compilation: when Pattern.create raises *)

Lemma simplify_loop_dotdot elems : forall simplified previous,
  In ".."%string elems ->
  simplify_loop elems simplified previous = Raise PatternError.
Proof.
  induction elems as [|e elems IH]; intros simplified previous H; [destruct H|].
  simpl. destruct (String.eqb_spec e ".."); [reflexivity|].
  destruct H as [H|H]; [congruence|].
  destruct (String.eqb e "."); [now apply IH|].
  destruct (String.eqb e "**" && opt_is previous "**"); now apply IH.
Qed.

Lemma simplify_loop_dots elems : forall simplified previous,
  (forall e, In e elems -> e = "."%string) ->
  simplify_loop elems simplified previous = Ok simplified.
Proof.
  induction elems as [|e elems IH]; intros simplified previous H; [reflexivity|].
  simpl. rewrite (H e) by (now left). simpl. apply IH.
  intros e' He'. apply H. now right.
Qed.

Lemma simplify_loop_keeps elems : forall simplified previous,
  ~ In ".."%string elems ->
  exists l, simplify_loop elems simplified previous = Ok l
            /\ (simplified <> [] -> l <> []).
Proof.
  induction elems as [|e elems IH]; intros simplified previous H.
  - exists simplified. split; [reflexivity | tauto].
  - simpl. destruct (String.eqb_spec e ".."); [exfalso; apply H; now left|].
    assert (H' : ~ In ".."%string elems) by (intros X; apply H; now right).
    destruct (String.eqb e "."); [now apply IH|].
    destruct (String.eqb e "**" && opt_is previous "**"); [now apply IH|].
    destruct (IH (simplified ++ [normcase e]) (Some e) H') as (l & Hl & Hne).
    exists l. split; [assumption|]. intros _. apply Hne.
    now destruct simplified.
Qed.

Lemma simplify_loop_nonempty elems : forall simplified previous,
  ~ In ".."%string elems ->
  (exists e, In e elems /\ e <> "."%string) ->
  (opt_is previous "**" = true -> simplified <> []) ->
  exists l, simplify_loop elems simplified previous = Ok l /\ l <> [].
Proof.
  induction elems as [|e elems IH]; intros simplified previous H (x & Hx & Hdot) Hprev.
  - destruct Hx.
  - simpl. destruct (String.eqb_spec e ".."); [exfalso; apply H; now left|].
    assert (H' : ~ In ".."%string elems) by (intros X; apply H; now right).
    destruct (String.eqb_spec e ".").
    { apply IH; try assumption. destruct Hx as [Hx|Hx]; [congruence|]. now exists x. }
    destruct (String.eqb e "**" && opt_is previous "**") eqn:B.
    + apply andb_true_iff in B. destruct B as [_ B].
      destruct (simplify_loop_keeps elems simplified previous H') as (l & Hl & Hne).
      exists l. split; [assumption|]. now apply Hne, Hprev.
    + destruct (simplify_loop_keeps elems (simplified ++ [normcase e]) (Some e) H')
        as (l & Hl & Hne).
      exists l. split; [assumption|]. apply Hne. now destruct simplified.
Qed.

Lemma py_index_first {A} (x : A) xs : py_index (x :: xs) 0 = Ok x.
Proof.
  destruct (py_index_ok (x :: xs) 0) as (y & Hy & ->).
  - unfold len. simpl. lia.
  - simpl in Hy. congruence.
Qed.

Lemma py_index_last_ok {A} (xs : list A) :
  xs <> [] -> exists x, py_index xs (-1) = Ok x.
Proof.
  intros H. destruct (py_index_last xs (len_tail_pos xs H)) as (x & _ & Hx).
  now exists x.
Qed.

Lemma py_index_singleton {A} (x : A) i y : py_index [x] i = Ok y -> y = x.
Proof.
  unfold py_index. change (len [x]) with 1.
  set (i' := if i <? 0 then 1 + i else i).
  destruct ((0 <=? i') && (i' <? 1)) eqn:B; [|discriminate].
  apply andb_true_iff in B. rewrite Z.leb_le, Z.ltb_lt in B.
  replace i' with 0 by lia. simpl. congruence.
Qed.

Lemma Pattern_simplify_nonempty elems l :
  simplify_loop elems [] None = Ok l -> l <> [] ->
  exists r, Pattern_simplify elems = Ok r /\ r <> [].
Proof.
  intros Hl Hne. unfold Pattern_simplify. rewrite Hl. simpl bind.
  destruct (py_index_last_ok l Hne) as (last & Hlast). rewrite Hlast. simpl bind.
  destruct l as [|x [|y l']]; [congruence| |].
  - apply py_index_singleton in Hlast. subst last.
    destruct (String.eqb_spec x EmptyString) as [->|Hx].
    + eexists. split; [reflexivity | discriminate].
    + rewrite py_index_first. simpl bind.
      destruct (String.eqb_spec x EmptyString); [congruence|].
      destruct (negb (String.eqb x "**")); eexists; split;
        try reflexivity; discriminate.
  - destruct (String.eqb last EmptyString).
    + change (removelast (x :: y :: l') ++ ["**"%string])
        with (x :: (removelast (y :: l') ++ ["**"%string])).
      rewrite py_index_first. simpl bind.
      destruct (String.eqb x EmptyString).
      * eexists. split; [reflexivity|]. cbn [tl]. intros X.
        apply app_eq_nil in X. destruct X; discriminate.
      * destruct (negb (String.eqb x "**")); eexists; split;
          try reflexivity; discriminate.
    + rewrite py_index_first. simpl bind.
      destruct (String.eqb x EmptyString).
      * eexists. split; [reflexivity | discriminate].
      * destruct (negb (String.eqb x "**")); eexists; split;
          try reflexivity; discriminate.
Qed.

Lemma Pattern_init_ok elems :
  elems <> [] -> exists p, Pattern_init elems = Ok p.
Proof.
  intros Hne. unfold Pattern_init.
  destruct elems as [|x xs]; [congruence|].
  rewrite py_index_first. unfold bind at 1.
  destruct (py_index_last_ok (x :: xs) Hne) as (last & ->). unfold bind at 1.
  destruct (negb (String.eqb last "**")).
  - destruct (removelast (x :: xs)) as [|y ys] eqn:E.
    + unfold bind. eexists. reflexivity.
    + destruct (py_index_last_ok (y :: ys)) as (l2 & Hl2); [discriminate|].
      rewrite Hl2. unfold bind. eexists. reflexivity.
  - destruct (py_index_last_ok (x :: xs) Hne) as (l2 & Hl2).
    rewrite Hl2. unfold bind. eexists. reflexivity.
Qed.

Lemma create_after_simplify fresh glob r :
  Pattern_simplify (glob_elements glob) = Ok r -> r <> [] ->
  exists c, Pattern_create fresh glob = Ok c.
Proof.
  intros Hr Hne. unfold Pattern_create. rewrite Hr. unfold bind at 1.
  destruct (Pattern_init_ok r Hne) as (p & Hp).
  destruct (len r >? 1) eqn:G.
  - destruct (py_index_last_ok r Hne) as (last & ->). unfold bind at 1 2.
    destruct (String.eqb last "**").
    + rewrite Hp. unfold bind at 1.
      destruct (Pattern_init_ok (removelast r)) as (p2 & ->).
      * destruct r as [|x [|y r']]; [congruence | now compute in G | discriminate].
      * unfold bind. eexists. reflexivity.
    + rewrite Hp. unfold bind. eexists. reflexivity.
  - unfold bind at 1. rewrite Hp. unfold bind. eexists. reflexivity.
Qed.

Lemma create_dotdot fresh glob :
  In ".."%string (glob_elements glob) ->
  Pattern_create fresh glob = Raise PatternError.
Proof.
  intros H. unfold Pattern_create, Pattern_simplify.
  now rewrite simplify_loop_dotdot.
Qed.

Lemma create_only_dots fresh glob :
  (forall e, In e (glob_elements glob) -> e = "."%string) ->
  Pattern_create fresh glob = Raise IndexError.
Proof.
  intros H. unfold Pattern_create, Pattern_simplify.
  now rewrite simplify_loop_dots.
Qed.

Lemma create_compiles fresh glob :
  ~ In ".."%string (glob_elements glob) ->
  (exists e, In e (glob_elements glob) /\ e <> "."%string) ->
  exists c, Pattern_create fresh glob = Ok c.
Proof.
  intros H1 H2.
  destruct (simplify_loop_nonempty (glob_elements glob) [] None H1 H2)
    as (l & Hl & Hne); [discriminate|].
  destruct (Pattern_simplify_nonempty _ _ Hl Hne) as (r & Hr & Hrne).
  now apply (create_after_simplify fresh glob r).
Qed.

Lemma all_dots_or_not (l : list string) :
  (forall e, In e l -> e = "."%string)
  \/ (exists e, In e l /\ e <> "."%string).
Proof.
  induction l as [|x l [IH|(e & He & Hne)]].
  - left. intros e [].
  - destruct (String.eqb_spec x ".") as [->|Hx].
    + left. intros e [<-|He]; [reflexivity | now apply IH].
    + right. exists x. split; [now left | assumption].
  - right. exists e. split; [now right | assumption].
Qed.

(** C6 (amended). Pattern.create raises PatternError exactly when the glob,
    cut at its separators, has a component equal to two dots; a glob with no
    such component and with some component other than a single dot compiles
    without raising; the empty glob is one of these and compiles. *)
Theorem create_raises_PatternError (fresh : nat) (glob : string) :
  (Pattern_create fresh glob = Raise PatternError
   <-> In ".."%string (glob_elements glob))
  /\ (~ In ".."%string (glob_elements glob) ->
      (exists e, In e (glob_elements glob) /\ e <> "."%string) ->
      exists c, Pattern_create fresh glob = Ok c)
  /\ (exists c, Pattern_create fresh EmptyString = Ok c).
Proof.
  split; [|split].
  - split; [|apply create_dotdot].
    intros H. destruct (in_dec string_dec ".."%string (glob_elements glob)) as [Hin|Hin];
      [assumption|]. exfalso.
    destruct (all_dots_or_not (glob_elements glob)) as [Hd|Hd].
    + rewrite create_only_dots in H by assumption. discriminate.
    + destruct (create_compiles fresh glob Hin Hd) as (c & Hc). congruence.
  - apply create_compiles.
  - apply create_compiles.
    + simpl. intros [H|[]]. discriminate.
    + exists EmptyString. split; [now left | discriminate].
Qed.

(** ** PatternSet *)

Lemma file_filter_pred self :
  exists pred, forall files, file_filter self files = List.filter pred files.
Proof.
  unfold file_filter, fnfilter.
  destruct (String.eqb (file_pattern self) "*").
  - exists (fun _ => true). intros files. induction files as [|f l IH]; simpl; congruence.
  - destruct (contains_char star (file_pattern self)
              || contains_char qmark (file_pattern self)); eexists; reflexivity.
Qed.

Lemma file_matches_pred self :
  exists pred, forall (files : gset string) x,
    x ∈ file_matches self files <-> x ∈ files /\ pred x = true.
Proof.
  destruct (file_filter_pred self) as (pred & Hp). exists pred.
  intros files x. unfold file_matches. rewrite Hp, elem_of_list_to_set.
  rewrite list_elem_of_In, List.filter_In, <- list_elem_of_In, elem_of_elements.
  reflexivity.
Qed.

Lemma match_files_loop_eq pats : forall (matched unmatched : gset string),
  match_files_loop pats matched unmatched
  = (matched ∪ ⋃ (map (fun r => file_matches (deref r) unmatched) pats),
     unmatched ∖ ⋃ (map (fun r => file_matches (deref r) unmatched) pats)).
Proof.
  induction pats as [|r rest IH]; intros matched unmatched.
  - cbn [match_files_loop map union_list foldr].
    now rewrite union_empty_r_L, difference_empty_L.
  - cbn [match_files_loop]. unfold Pattern_match_files.
    fold (file_matches (deref r) unmatched).
    set (T := file_matches (deref r) unmatched).
    assert (HU : forall (u : gset string) x,
              x ∈ ⋃ (map (fun q => file_matches (deref q) u) rest)
              <-> exists q, In q rest /\ x ∈ file_matches (deref q) u).
    { intros u x. rewrite elem_of_union_list. split.
      - intros (X & HX & Hx). apply list_elem_of_In, List.in_map_iff in HX.
        destruct HX as (q & <- & Hq). now exists q.
      - intros (q & Hq & Hx). exists (file_matches (deref q) u).
        split; [|assumption]. apply list_elem_of_In, List.in_map_iff. now exists q. }
    assert (Hsub : forall x,
              x ∈ ⋃ (map (fun q => file_matches (deref q) unmatched) rest) ->
              x ∈ unmatched).
    { intros x Hx. apply HU in Hx. destruct Hx as (q & _ & Hx).
      destruct (file_matches_pred (deref q)) as (pred & Hp). now apply Hp in Hx. }
    assert (Hres : forall x,
              x ∈ ⋃ (map (fun q => file_matches (deref q) (unmatched ∖ T)) rest)
              <-> x ∈ ⋃ (map (fun q => file_matches (deref q) unmatched) rest)
                  /\ x ∉ T).
    { intros x. rewrite !HU. split.
      - intros (q & Hq & Hx).
        destruct (file_matches_pred (deref q)) as (pred & Hp).
        apply Hp in Hx. destruct Hx as (Hx & Hpx).
        apply elem_of_difference in Hx. destruct Hx as (Hx & HT).
        split; [|assumption]. exists q. split; [assumption|]. apply Hp. tauto.
      - intros ((q & Hq & Hx) & HT). exists q. split; [assumption|].
        destruct (file_matches_pred (deref q)) as (pred & Hp).
        apply Hp in Hx. apply Hp. split; [|tauto].
        apply elem_of_difference. tauto. }
    cbn [map union_list foldr].
    case_bool_decide as Hempty.
    + assert (HT : forall x,
                x ∈ ⋃ (map (fun q => file_matches (deref q) unmatched) rest) ->
                x ∈ T).
      { intros x Hx. destruct (decide (x ∈ T)) as [|Hn]; [assumption|]. exfalso.
        assert (Hd : x ∈ unmatched ∖ T) by (apply elem_of_difference; auto).
        rewrite Hempty in Hd. now apply not_elem_of_empty in Hd. }
      f_equal; apply set_eq; intros x;
        rewrite ?elem_of_union, ?elem_of_difference, ?elem_of_union;
        specialize (HT x); tauto.
    + rewrite IH. f_equal; apply set_eq; intros x;
        rewrite ?elem_of_union, ?elem_of_difference, ?elem_of_union, ?Hres;
        specialize (Hsub x); destruct (decide (x ∈ T)); tauto.
Qed.
(** C8 (amended). After PatternSet.match_files(matched, unmatched) the
    matched set is the original matched set together with the union, over
    the member Patterns, of the Pattern's file matches on the original
    unmatched set; the unmatched set is the original one minus that union;
    and when the two sets were disjoint they still are, also when the loop
    stops early on an empty unmatched set. *)
Theorem PatternSet_match_files_union (self : PatternSet)
    (matched unmatched : gset string) :
  let selected : gset string :=
    ⋃ (map (fun r => file_matches (deref r) unmatched) (patterns self)) in
  PatternSet_match_files self matched unmatched
  = (matched ∪ selected, unmatched ∖ selected)
  /\ (matched ∩ unmatched = ∅ ->
      fst (PatternSet_match_files self matched unmatched)
      ∩ snd (PatternSet_match_files self matched unmatched) = ∅).
Proof.
  intros selected. unfold PatternSet_match_files, PatternSet_iter.
  rewrite match_files_loop_eq. fold selected. split; [reflexivity|].
  intros Hdisj. cbn [fst snd]. apply set_eq. intros x.
  rewrite elem_of_intersection, elem_of_union, elem_of_difference.
  split; [|intros H; now apply not_elem_of_empty in H].
  intros ([Hm|Hs] & Hu & Hn); [|contradiction].
  exfalso. apply (not_elem_of_empty (C:=gset string) x).
  rewrite <- Hdisj. apply elem_of_intersection. tauto.
Qed.

Lemma any_all_files_app l1 l2 :
  any_all_files (l1 ++ l2) = any_all_files l1 || any_all_files l2.
Proof. apply existsb_app. Qed.

Lemma constructed_cache_ok s : constructed s -> cache_ok s.
Proof.
  induction 1 as [|s p _ IH|s arg _ IH|s p _ IH|s _ IH]; unfold cache_ok in *.
  - intros b H. injection H as <-. reflexivity.
  - intros b. simpl. destruct (_all_files s) as [c|]; [|discriminate].
    intros H. injection H as <-. rewrite any_all_files_app, (IH c eq_refl).
    unfold any_all_files at 2. simpl. now rewrite orb_false_r.
  - destruct arg as [p|ps|l]; simpl; try discriminate.
    intros b. destruct (_all_files s) as [c|]; [|discriminate].
    intros H. injection H as <-. rewrite any_all_files_app, (IH c eq_refl).
    unfold any_all_files at 2. simpl. now rewrite orb_false_r.
  - unfold PatternSet_remove.
    destruct (list_remove same_object p (patterns s)); simpl;
      [discriminate | assumption].
  - unfold PatternSet_all_files.
    destruct (_all_files s) as [c|] eqn:E; simpl.
    + intros b H. apply IH. congruence.
    + intros b H. injection H as <-. reflexivity.
Qed.

(** C9. In every state of a PatternSet reached from a new PatternSet by
    append, extend and remove (and reads of all_files in between),
    all_files() returns true if and only if some member Pattern's
    all_files() is true (its file_pattern is the star), and a cache that
    holds a value holds this disjunction over the members. *)
Theorem all_files_cache_correct (s : PatternSet) :
  constructed s ->
  (fst (PatternSet_all_files s) = true
   <-> exists p, In p (patterns s)
                 /\ Pattern_all_files (deref p) = true
                 /\ file_pattern (deref p) = "*"%string)
  /\ (forall b, _all_files s = Some b ->
        b = existsb (fun pat => Pattern_all_files (deref pat)) (patterns s)).
Proof.
  intros H. apply constructed_cache_ok in H. split; [|exact H].
  assert (E : fst (PatternSet_all_files s) = any_all_files (patterns s)).
  { unfold PatternSet_all_files. destruct (_all_files s) as [b|] eqn:C.
    - simpl. now apply H.
    - reflexivity. }
  rewrite E. unfold any_all_files. rewrite existsb_exists.
  split; intros (p & Hp & Ha); exists p; [|tauto].
  repeat split; try assumption. now apply String.eqb_eq.
Qed.

Lemma list_remove_absent {A} (same : A -> A -> bool) x l :
  (forall y, In y l -> same y x = false) -> list_remove same x l = None.
Proof.
  induction l as [|y l IH]; intros H; [reflexivity|].
  simpl. rewrite (H y) by (now left). rewrite IH; [reflexivity|].
  intros z Hz. apply H. now right.
Qed.

(** C10. When the Pattern object p is not a member of s.patterns, membership
    being identity of the object, s.remove(p) raises and leaves s as it was:
    the list keeps its elements and the cache keeps its value. *)
Theorem remove_absent_raises (s : PatternSet) (p : PatternRef) :
  (forall q, In q (patterns s) -> same_object q p = false) ->
  PatternSet_remove s p = (s, Raise ValueError)
  /\ patterns (fst (PatternSet_remove s p)) = patterns s
  /\ _all_files (fst (PatternSet_remove s p)) = _all_files s.
Proof.
  intros H. unfold PatternSet_remove.
  rewrite list_remove_absent by assumption. repeat split.
Qed.

(** * More of the module *)

(** ** Verdicts of match_directory *)

Lemma found_values self :
  found self = MATCH \/ found self = MATCH_ALL_SUBDIRECTORIES
  \/ found self = MATCH_BUT_NO_SUBDIRECTORIES.
Proof.
  unfold found.
  destruct ((len (sections self) =? 1) && p_bound_start self && p_bound_end self);
    [tauto|]. destruct (p_bound_end self); tauto.
Qed.

Lemma match_directory_values (self : Pattern) (path_elements : list string) :
  exists verdict,
    match_directory self path_elements = Ok verdict
    /\ (verdict = NO_MATCH \/ verdict = MATCH
        \/ verdict = MATCH_ALL_SUBDIRECTORIES
        \/ verdict = MATCH_BUT_NO_SUBDIRECTORIES
        \/ verdict = NO_MATCH_NO_SUBDIRECTORIES).
Proof.
  destruct (sections self) as [|s rest] eqn:E.
  - unfold match_directory. rewrite E.
    destruct (p_bound_start self); [destruct (len path_elements =? 0)|];
      eexists; split; try reflexivity; tauto.
  - rewrite (match_directory_sections _ _ _ _ E).
    destruct (reachable path_elements (sections self) 0).
    + exists (found self). split; [reflexivity|].
      destruct (found_values self) as [H|[H|H]]; rewrite H; tauto.
    + destruct (match_ends s path_elements 0).
      * destruct (not_found_ok self true false s path_elements)
          as (v & -> & [-> | (-> & _)]); eexists; split; try reflexivity; tauto.
      * eexists; split; [reflexivity | tauto].
Qed.

(** X1. match_directory never raises, and its verdict is one of the five
    values of MatchType: the ALL_SUBDIRECTORIES and NO_SUBDIRECTORIES bits are
    never set together and ALL_SUBDIRECTORIES never comes without MATCH. *)
Theorem match_directory_verdict (self : Pattern) (path_elements : list string) :
  exists verdict,
    match_directory self path_elements = Ok verdict
    /\ (verdict = NO_MATCH \/ verdict = MATCH
        \/ verdict = MATCH_ALL_SUBDIRECTORIES
        \/ verdict = MATCH_BUT_NO_SUBDIRECTORIES
        \/ verdict = NO_MATCH_NO_SUBDIRECTORIES)
    /\ (Z.land verdict BIT_ALL_SUBDIRECTORIES = 0
        \/ Z.land verdict BIT_NO_SUBDIRECTORIES = 0)
    /\ (Z.land verdict BIT_ALL_SUBDIRECTORIES <> 0 ->
        Z.land verdict BIT_MATCH <> 0).
Proof.
  destruct (match_directory_values self path_elements) as (v & Hv & Hcases).
  exists v. split; [assumption|]. split; [assumption|].
  destruct Hcases as [-> | [-> | [-> | [-> | ->]]]]; split;
    try (left; reflexivity); try (right; reflexivity);
    intros H; try discriminate; now compute in H.
Qed.

(** X2. A Pattern that is not bound at the start never tells the walker to
    skip the subdirectories: its verdict does not carry NO_SUBDIRECTORIES. *)
Theorem unanchored_never_prunes (self : Pattern) (path_elements : list string) :
  p_bound_start self = false ->
  exists verdict,
    match_directory self path_elements = Ok verdict
    /\ Z.land verdict BIT_NO_SUBDIRECTORIES = 0.
Proof.
  intros Hbs. destruct (sections self) as [|s rest] eqn:E.
  - unfold match_directory. rewrite E, Hbs. now eexists.
  - rewrite (match_directory_sections _ _ _ _ E).
    destruct (reachable path_elements (sections self) 0).
    + exists (found self). split; [reflexivity|]. unfold found.
      rewrite Hbs, andb_false_r. simpl. now destruct (p_bound_end self).
    + destruct (match_ends s path_elements 0).
      * unfold not_found. rewrite Hbs. simpl. now eexists.
      * now eexists.
Qed.

(** ** What Pattern.__init__ builds *)

Lemma split_sections_elements elems : forall fragment,
  Forall (fun s => elements s <> []) (split_sections elems fragment).
Proof.
  induction elems as [|e elems IH]; intros fragment; simpl.
  - destruct fragment; repeat constructor. discriminate.
  - destruct (String.eqb e "**"); [|apply IH].
    destruct fragment; [apply IH|]. constructor; [discriminate | apply IH].
Qed.

Lemma bind_first_elements secs :
  Forall (fun s => elements s <> []) secs ->
  Forall (fun s => elements s <> []) (bind_first secs).
Proof. intros [|s rest H1 H2]; simpl; constructor; assumption. Qed.

Lemma bind_last_elements secs :
  Forall (fun s => elements s <> []) secs ->
  Forall (fun s => elements s <> []) (bind_last secs).
Proof.
  induction 1 as [|s rest H1 H2 IH]; simpl; [constructor|].
  destruct rest; constructor; assumption.
Qed.

Lemma py_index_In {A} (xs : list A) i x : py_index xs i = Ok x -> In x xs.
Proof.
  unfold py_index. destruct (_ && _); [|discriminate].
  destruct (nth_error xs _) as [y|] eqn:E; [|discriminate].
  intros H. injection H as <-. now apply nth_error_In in E.
Qed.

Lemma split_sections_nil elems : forall fragment,
  split_sections elems fragment = [] ->
  fragment = [] /\ forall e, In e elems -> e = "**"%string.
Proof.
  induction elems as [|e elems IH]; intros fragment H; simpl in H.
  - destruct fragment; [|discriminate]. split; [reflexivity | intros e []].
  - destruct (String.eqb_spec e "**") as [->|Hne].
    + destruct fragment; [|discriminate].
      destruct (IH [] H) as [_ Hall]. split; [reflexivity|].
      intros e [<-|He]; [reflexivity | now apply Hall].
    + destruct (IH _ H) as [Hf _]. now destruct fragment.
Qed.

Lemma removelast_head {A} (x y : A) xs ys :
  removelast (x :: xs) = y :: ys -> x = y.
Proof. destruct xs; simpl; congruence. Qed.

Lemma Pattern_init_shape elems p :
  Pattern_init elems = Ok p ->
  exists (directory : list string) (bs be : bool),
    sections p = (if be then bind_last
                              (if bs then bind_first (split_sections directory [])
                               else split_sections directory [])
                  else (if bs then bind_first (split_sections directory [])
                        else split_sections directory []))
    /\ p_bound_start p = bs /\ p_bound_end p = be
    /\ (split_sections directory [] = [] -> be = bs).
Proof.
  unfold Pattern_init. intros H.
  destruct elems as [|x xs]; [discriminate|].
  rewrite py_index_first in H. unfold bind at 1 in H.
  destruct (py_index (x :: xs) (-1)) as [last|] eqn:L; unfold bind at 1 in H;
    [|discriminate].
  destruct (negb (String.eqb last "**")) eqn:B.
  - destruct (removelast (x :: xs)) as [|y ys] eqn:E; unfold bind in H.
    + injection H as <-.
      exists (@nil string), (negb (String.eqb x "**")), (negb (String.eqb x "**")).
      repeat split.
    + destruct (py_index (y :: ys) (-1)) as [l2|] eqn:L2; [|discriminate].
      injection H as <-.
      exists (y :: ys), (negb (String.eqb x "**")), (negb (String.eqb l2 "**")).
      split; [reflexivity|]. split; [reflexivity|]. split; [reflexivity|].
      intros Hnil. apply split_sections_nil in Hnil. destruct Hnil as [_ Hall].
      apply removelast_head in E. subst y.
      rewrite (Hall x) by (now left).
      rewrite (Hall l2) by (now apply py_index_In in L2). reflexivity.
  - destruct (py_index (x :: xs) (-1)) as [l2|] eqn:L2; unfold bind in H;
      [|discriminate].
    injection H as <-.
    exists (x :: xs), (negb (String.eqb x "**")), (negb (String.eqb l2 "**")).
    split; [reflexivity|]. split; [reflexivity|]. split; [reflexivity|].
    intros Hnil. apply split_sections_nil in Hnil. destruct Hnil as [_ Hall].
    rewrite (Hall x) by (now left).
    rewrite (Hall l2) by (now apply py_index_In in L2). reflexivity.
Qed.
Lemma Pattern_init_elements elems p :
  Pattern_init elems = Ok p ->
  Forall (fun s => elements s <> []) (sections p).
Proof.
  intros H. destruct (Pattern_init_shape _ _ H) as (directory & bs & be & -> & _).
  pose proof (split_sections_elements directory []) as Hs.
  destruct be, bs; auto using bind_first_elements, bind_last_elements.
Qed.

Lemma inner_flags_at be before : forall s after,
  inner_flags be (before ++ s :: after) ->
  bound_start s = false
  /\ bound_end s = match after with [] => be | _ :: _ => false end.
Proof.
  induction before as [|b before IH]; intros s after H; simpl in H.
  - tauto.
  - destruct H as (_ & _ & H). now apply IH.
Qed.

(** X3. What the constructor of Pattern establishes: every section holds at
    least one matcher; only the first section carries the Pattern's
    bound_start and only the last its bound_end, every other flag is false;
    and a Pattern without sections has bound_end equal to bound_start. *)
Theorem Pattern_init_invariants (elems : list string) (p : Pattern) :
  Pattern_init elems = Ok p ->
  (forall before s after,
     sections p = before ++ s :: after ->
     elements s <> []
     /\ bound_start s = match before with
                        | [] => p_bound_start p
                        | _ :: _ => false
                        end
     /\ bound_end s = match after with
                      | [] => p_bound_end p
                      | _ :: _ => false
                      end)
  /\ (sections p = [] -> p_bound_end p = p_bound_start p).
Proof.
  intros H. split.
  - intros before s after E. split.
    + pose proof (Pattern_init_elements _ _ H) as Hall.
      rewrite List.Forall_forall in Hall. apply Hall. rewrite E.
      apply in_or_app. right. now left.
    + pose proof (Pattern_init_flags _ _ H) as F. unfold flags_ok in F.
      rewrite E in F. destruct before as [|b before]; simpl in F.
      * destruct F as (F1 & F2 & _). split; [assumption|].
        now destruct after.
      * destruct F as (_ & _ & F). apply inner_flags_at in F.
        destruct F as [F1 F2]. split; assumption.
  - intros E. destruct (Pattern_init_shape _ _ H) as (directory & bs & be & S & <- & <- & Hnil).
    apply Hnil. rewrite E in S.
    destruct (split_sections directory []) as [|s0 rest0]; [reflexivity|].
    exfalso. destruct (p_bound_end p), (p_bound_start p), rest0; simpl in S;
      discriminate.
Qed.

(** X4. A compiled Pattern that has sections does not match the root
    directory: on the empty list of components match_directory returns
    NO_MATCH, whatever the bounds. *)
Theorem root_directory_no_match (elems : list string) (p : Pattern) :
  Pattern_init elems = Ok p ->
  sections p <> [] ->
  match_directory p [] = Ok NO_MATCH.
Proof.
  intros H Hne. destruct (sections p) as [|s rest] eqn:E; [congruence|].
  pose proof (Pattern_init_elements _ _ H) as Hall. rewrite E in Hall.
  inversion Hall as [|? ? Hs _]; subst.
  assert (Hk : 0 < len (elements s)) by now apply len_tail_pos.
  assert (Hends : match_ends s [] 0 = []).
  { apply match_ends_nil; [lia|]. intros j.
    destruct (candidate s [] 0 j) eqn:C; [|reflexivity].
    apply candidate_inv in C. unfold length_of in C. change (len (@nil string)) with 0 in C. lia. }
  rewrite (match_directory_sections _ _ _ _ E), E. cbn [reachable].
  rewrite Hends. simpl existsb. cbv iota.
  unfold not_found. change (len (@nil string)) with 0.
  rewrite Z.geb_leb. destruct (Z.leb_spec (len (elements s)) 0); [lia|].
  now rewrite andb_false_r, !Tauto.if_same.
Qed.

(** ** Matching one file *)

Lemma file_filter_single self f :
  (len (file_filter self [f]) >? 0)
  = bool_decide (f ∈ file_matches self {[ f ]}).
Proof.
  unfold file_matches. rewrite elements_singleton.
  destruct (file_filter_pred self) as (pred & ->). simpl.
  destruct (pred f); simpl.
  - symmetry. apply bool_decide_eq_true. set_solver.
  - symmetry. apply bool_decide_eq_false. set_solver.
Qed.

Lemma py_index_app_last {A} (xs : list A) x : py_index (xs ++ [x]) (-1) = Ok x.
Proof.
  destruct (py_index_last (xs ++ [x])) as (y & Hy & ->).
  - rewrite len_app. pose proof (len_nonneg xs). change (len [x]) with 1. lia.
  - rewrite len_app in Hy. change (len [x]) with 1 in Hy.
    replace (Z.to_nat (len xs + 1 - 1)) with (List.length xs) in Hy
      by (unfold len; lia).
    rewrite List.nth_error_app2, Nat.sub_diag in Hy by lia.
    simpl in Hy. congruence.
Qed.

(** X5. Pattern.match_file on a directory followed by a file name never
    raises; it returns true exactly when match_directory on the directory has
    the MATCH bit and match_files would move the name out of the set holding
    it alone. On the empty list it raises IndexError when the Pattern matches
    the root directory and returns false otherwise. *)
Theorem Pattern_match_file_spec (self : Pattern) (d : list string) (f : string) :
  (exists verdict,
     match_directory self d = Ok verdict
     /\ Pattern_match_file self (d ++ [f])
        = Ok (truthy (Z.land verdict BIT_MATCH)
              && bool_decide (f ∈ file_matches self {[ f ]})))
  /\ (exists verdict,
        match_directory self [] = Ok verdict
        /\ Pattern_match_file self []
           = if truthy (Z.land verdict BIT_MATCH) then Raise IndexError
             else Ok false).
Proof.
  split.
  - destruct (match_directory_values self d) as (v & Hv & _).
    exists v. split; [assumption|].
    unfold Pattern_match_file. rewrite List.removelast_last, Hv. simpl bind.
    destruct (truthy (Z.land v BIT_MATCH)); [|reflexivity].
    rewrite py_index_app_last. simpl bind. now rewrite file_filter_single.
  - destruct (match_directory_values self []) as (v & Hv & _).
    exists v. split; [assumption|].
    unfold Pattern_match_file. simpl removelast. rewrite Hv. simpl bind.
    now destruct (truthy (Z.land v BIT_MATCH)).
Qed.

Lemma Pattern_match_file_ok self d f :
  exists b, Pattern_match_file self (d ++ [f]) = Ok b.
Proof.
  destruct (match_directory_values self d) as (v & Hv & _).
  unfold Pattern_match_file. rewrite List.removelast_last, Hv. simpl bind.
  destruct (truthy (Z.land v BIT_MATCH)); [|now eexists].
  rewrite py_index_app_last. simpl bind. now eexists.
Qed.

(** X6. PatternSet.match_file on a directory followed by a file name never
    raises, and returns true exactly when some member Pattern's match_file
    returns true. *)
Theorem PatternSet_match_file_any (self : PatternSet) (d : list string)
    (f : string) :
  exists b,
    PatternSet_match_file self (d ++ [f]) = Ok b
    /\ (b = true <->
        exists r, In r (patterns self)
                  /\ Pattern_match_file (deref r) (d ++ [f]) = Ok true).
Proof.
  unfold PatternSet_match_file, PatternSet_iter.
  induction (patterns self) as [|r rest IH]; simpl.
  - exists false. split; [reflexivity|]. split; [discriminate|].
    intros (r & [] & _).
  - destruct (Pattern_match_file_ok (deref r) d f) as (b & Hb). rewrite Hb.
    simpl bind. destruct b.
    + exists true. split; [reflexivity|]. split; [|reflexivity].
      intros _. exists r. split; [now left | assumption].
    + destruct IH as (b & Hloop & Hiff). exists b. split; [assumption|].
      rewrite Hiff. split.
      * intros (q & Hq & Hm). exists q. split; [now right | assumption].
      * intros (q & [<-|Hq] & Hm); [congruence|]. now exists q.
Qed.

(** ** Removing a member *)

Lemma list_remove_present {A} (same : A -> A -> bool) x l :
  (exists q, In q l /\ same q x = true) ->
  exists before q after,
    l = before ++ q :: after
    /\ same q x = true
    /\ (forall y, In y before -> same y x = false)
    /\ list_remove same x l = Some (before ++ after).
Proof.
  induction l as [|y l IH]; intros (q & Hq & Hs); [destruct Hq|].
  simpl. destruct (same y x) eqn:Y.
  - exists [], y, l. repeat split; try assumption. intros z [].
  - destruct IH as (before & q' & after & -> & Hq' & Hb & ->).
    { destruct Hq as [<-|Hq]; [congruence|]. now exists q. }
    exists (y :: before), q', after. repeat split; try assumption.
    intros z [<-|Hz]; [assumption | now apply Hb].
Qed.

(** X7. When some member of the set is the object p, remove(p) returns
    normally: it drops the first such member and no other, keeps the order of
    the rest, and sets the cache to unknown. *)
Theorem remove_present (s : PatternSet) (p : PatternRef) :
  (exists q, In q (patterns s) /\ same_object q p = true) ->
  exists before q after,
    patterns s = before ++ q :: after
    /\ same_object q p = true
    /\ (forall y, In y before -> same_object y p = false)
    /\ PatternSet_remove s p
       = ({| patterns := before ++ after; _all_files := None |}, Ok tt).
Proof.
  intros H. destruct (list_remove_present same_object p (patterns s) H)
    as (before & q & after & E & Hq & Hb & Hr).
  exists before, q, after. repeat split; try assumption.
  unfold PatternSet_remove. now rewrite Hr.
Qed.

(** ** Equality of matchers *)

(** X8. Matcher.__eq__ is an equivalence on matchers, __ne__ is its negation,
    matchers that are equal match the same strings, and two matchers made by
    Matcher.create are equal exactly when both patterns have a wildcard or
    neither has, and their normalised patterns are the same string. *)
Theorem Matcher_eq_equivalence :
  (forall a, Matcher_eq a a = true)
  /\ (forall a b, Matcher_eq a b = Matcher_eq b a)
  /\ (forall a b c,
        Matcher_eq a b = true -> Matcher_eq b c = true -> Matcher_eq a c = true)
  /\ (forall a b, Matcher_ne a b = negb (Matcher_eq a b))
  /\ (forall a b,
        Matcher_eq a b = true -> forall s, Matcher_match a s = Matcher_match b s)
  /\ (forall x y,
        Matcher_eq (Matcher_create x) (Matcher_create y) = true
        <-> (contains_char qmark x || contains_char star x
             = contains_char qmark y || contains_char star y)
            /\ normcase x = normcase y).
Proof.
  split; [|split; [|split; [|split; [|split]]]].
  - intros [p q|p q]; unfold Matcher_eq; simpl; apply String.eqb_refl.
  - intros [p q|p q] [p' q'|p' q']; unfold Matcher_eq; simpl;
      try reflexivity; apply String.eqb_sym.
  - intros [p q|p q] [p' q'|p' q'] [p2 q2|p2 q2]; unfold Matcher_eq; simpl;
      intros H1 H2; try discriminate;
      apply String.eqb_eq in H1, H2; apply String.eqb_eq; congruence.
  - intros a b. unfold Matcher_ne, Matcher_eq. now rewrite negb_andb.
  - intros [p q|p q] [p' q'|p' q']; unfold Matcher_eq; simpl;
      intros H s; try discriminate; apply String.eqb_eq in H; now subst.
  - intros x y. unfold Matcher_create, Matcher_eq.
    destruct (contains_char qmark x || contains_char star x),
      (contains_char qmark y || contains_char star y); simpl;
      rewrite ?String.eqb_eq; split; try discriminate; try tauto;
      intros [H _]; discriminate.
Qed.

(** ** match_files moves names and nothing else *)

Lemma selected_subset (pats : list PatternRef) (unmatched : gset string) x :
  x ∈ ⋃ (map (fun r => file_matches (deref r) unmatched) pats) ->
  x ∈ unmatched.
Proof.
  rewrite elem_of_union_list. intros (X & HX & Hx).
  apply list_elem_of_In, List.in_map_iff in HX. destruct HX as (q & <- & _).
  destruct (file_matches_pred (deref q)) as (pred & Hp). now apply Hp in Hx.
Qed.

Lemma selected_again_empty (pats : list PatternRef) (unmatched : gset string) :
  ⋃ (map (fun r => file_matches (deref r)
                     (unmatched ∖ ⋃ (map (fun q => file_matches (deref q) unmatched)
                                         pats)))
         pats) = ∅.
Proof.
  set (U := ⋃ (map (fun q => file_matches (deref q) unmatched) pats)).
  apply set_eq. intros x. split; [|intros H; now apply not_elem_of_empty in H].
  rewrite elem_of_union_list. intros (X & HX & Hx). exfalso.
  apply list_elem_of_In, List.in_map_iff in HX. destruct HX as (q & <- & Hq).
  destruct (file_matches_pred (deref q)) as (pred & Hp).
  apply Hp in Hx. destruct Hx as [Hx Hpx].
  apply elem_of_difference in Hx. destruct Hx as [Hu HU]. apply HU.
  unfold U. apply elem_of_union_list. exists (file_matches (deref q) unmatched).
  split; [|apply Hp; tauto].
  apply list_elem_of_In, List.in_map_iff. now exists q.
Qed.

(** X9. PatternSet.match_files only moves names from unmatched to matched:
    the two sets together hold the same names as before, nothing leaves
    matched and nothing enters unmatched. *)
Theorem PatternSet_match_files_conserves (self : PatternSet)
    (matched unmatched : gset string) :
  fst (PatternSet_match_files self matched unmatched)
  ∪ snd (PatternSet_match_files self matched unmatched)
  = matched ∪ unmatched
  /\ matched ⊆ fst (PatternSet_match_files self matched unmatched)
  /\ snd (PatternSet_match_files self matched unmatched) ⊆ unmatched.
Proof.
  unfold PatternSet_match_files, PatternSet_iter.
  rewrite match_files_loop_eq. cbn [fst snd].
  pose proof (selected_subset (patterns self) unmatched) as Hsub.
  set (U := ⋃ (map (fun r => file_matches (deref r) unmatched) (patterns self))) in *.
  split; [|split].
  - apply set_eq. intros x.
    rewrite !elem_of_union, elem_of_difference. specialize (Hsub x).
    destruct (decide (x ∈ U)); tauto.
  - intros x Hx. apply elem_of_union. now left.
  - intros x Hx. now apply elem_of_difference in Hx.
Qed.

(** X10. PatternSet.match_files is idempotent: a second call on the two sets
    the first call left changes neither. *)
Theorem PatternSet_match_files_idempotent (self : PatternSet)
    (matched unmatched : gset string) :
  PatternSet_match_files self
    (fst (PatternSet_match_files self matched unmatched))
    (snd (PatternSet_match_files self matched unmatched))
  = PatternSet_match_files self matched unmatched.
Proof.
  unfold PatternSet_match_files, PatternSet_iter.
  rewrite (match_files_loop_eq (patterns self) matched unmatched). cbn [fst snd].
  rewrite match_files_loop_eq, selected_again_empty.
  now rewrite union_empty_r_L, difference_empty_L.
Qed.

(** ** The all_files flag of a set that was extended *)

Lemma all_files_value s :
  constructed s -> fst (PatternSet_all_files s) = any_all_files (patterns s).
Proof.
  intros H. apply constructed_cache_ok in H. unfold PatternSet_all_files.
  destruct (_all_files s) as [b|] eqn:C; simpl; [now apply H | reflexivity].
Qed.

(** X11. After extend, all_files() of the set is the disjunction of what
    all_files() said before and of the all_files() of what was added: the
    Pattern, the members of the other PatternSet, or the Patterns of the
    list. *)
Theorem extend_all_files (s : PatternSet) (arg : ExtendArg) :
  constructed s ->
  fst (PatternSet_all_files (PatternSet_extend s arg))
  = fst (PatternSet_all_files s)
    || match arg with
       | OnePattern p => Pattern_all_files (deref p)
       | OtherSet ps =>
           existsb (fun pat => Pattern_all_files (deref pat)) (patterns ps)
       | PatternList l =>
           existsb (fun pat => Pattern_all_files (deref pat)) l
       end.
Proof.
  intros H.
  rewrite (all_files_value (PatternSet_extend s arg)) by now constructor.
  rewrite (all_files_value s H).
  destruct arg as [p|ps|l]; simpl; rewrite any_all_files_app; try reflexivity.
  unfold any_all_files at 2. simpl. now rewrite orb_false_r.
Qed.

(** ** Joining and splitting at the separator *)

Lemma append_nil_l s : String.append EmptyString s = s.
Proof. reflexivity. Qed.

Lemma append_cons a x s :
  String.append (String a x) s = String a (String.append x s).
Proof. reflexivity. Qed.

Lemma contains_char_app c x y :
  contains_char c (String.append x y) = contains_char c x || contains_char c y.
Proof.
  induction x as [|a x IH]; [reflexivity|].
  rewrite append_cons. simpl. now rewrite IH, orb_assoc.
Qed.

Lemma split_on_not_nil c s : split_on c s <> [].
Proof.
  destruct s as [|a s]; simpl; [discriminate|].
  destruct (Ascii.eqb a c); [discriminate|].
  destruct (split_on c s); discriminate.
Qed.

Lemma split_on_sep c s :
  split_on c (String c s) = EmptyString :: split_on c s.
Proof. simpl. now rewrite Ascii.eqb_refl. Qed.

Lemma split_on_app c x s :
  contains_char c x = false ->
  split_on c (String.append x s)
  = match split_on c s with
    | w :: ws => String.append x w :: ws
    | [] => [x]
    end.
Proof.
  induction x as [|a x IH]; intros H.
  - rewrite append_nil_l.
    destruct (split_on c s) eqn:E; [now apply split_on_not_nil in E | reflexivity].
  - simpl in H. apply orb_false_iff in H. destruct H as [Ha Hx].
    rewrite append_cons. simpl. rewrite Ascii.eqb_sym, Ha, (IH Hx).
    destruct (split_on c s) eqn:E; [now apply split_on_not_nil in E|].
    reflexivity.
Qed.

Lemma split_on_free c x :
  contains_char c x = false -> split_on c x = [x].
Proof.
  induction x as [|a x IH]; simpl; intros H; [reflexivity|].
  apply orb_false_iff in H. destruct H as [Ha Hx].
  now rewrite Ascii.eqb_sym, Ha, (IH Hx).
Qed.

Lemma append_empty_r x : String.append x EmptyString = x.
Proof.
  induction x as [|a x IH]; [reflexivity|]. rewrite append_cons. congruence.
Qed.

Lemma append_assoc x y z :
  String.append (String.append x y) z = String.append x (String.append y z).
Proof.
  induction x as [|a x IH]; [reflexivity|]. rewrite !append_cons. congruence.
Qed.

(** Splitting undoes joining when no item holds the separator. *)
Lemma split_join (l : list string) :
  l <> [] ->
  Forall (fun x => contains_char slash x = false) l ->
  split_on slash (join "/" l) = l.
Proof.
  induction l as [|x l IH]; intros Hne Hall; [congruence|].
  inversion Hall as [|? ? Hx Hl]; subst.
  destruct l as [|y l].
  - simpl. now apply split_on_free.
  - change (join "/" (x :: y :: l))
      with (String.append x (String slash (join "/" (y :: l)))).
    rewrite split_on_app by assumption. rewrite split_on_sep.
    rewrite IH by (assumption || discriminate).
    now rewrite append_empty_r.
Qed.

Lemma join_app sep (l1 l2 : list string) :
  l1 <> [] -> l2 <> [] ->
  join sep (l1 ++ l2)
  = String.append (join sep l1) (String.append sep (join sep l2)).
Proof.
  induction l1 as [|x l1 IH]; intros H1 H2; [congruence|].
  destruct l1 as [|y l1].
  - destruct l2; [congruence|]. reflexivity.
  - change (join sep ((x :: y :: l1) ++ l2))
      with (String.append x (String.append sep (join sep ((y :: l1) ++ l2)))).
    rewrite IH by (assumption || discriminate).
    change (join sep (x :: y :: l1))
      with (String.append x (String.append sep (join sep (y :: l1)))).
    now rewrite !append_assoc.
Qed.

(** ** Equality of sections *)

Lemma Matcher_str_create x : Matcher_str (Matcher_create x) = x.
Proof. unfold Matcher_create. now destruct (_ || _). Qed.

Lemma Section_str_init xs : Section_str (Section_init xs) = join "/" xs.
Proof.
  unfold Section_str, Section_init. simpl. f_equal.
  induction xs as [|x xs IH]; simpl; [reflexivity|].
  now rewrite Matcher_str_create, IH.
Qed.

(** X12. Section.__eq__ compares the elements as they were written: two
    sections built from non-empty lists of components that hold no separator
    are equal exactly when the lists are the same, and the bound flags take
    no part in the comparison. *)
Theorem Section_eq_elements (xs ys : list string) :
  xs <> [] -> ys <> [] ->
  Forall (fun x => contains_char slash x = false) xs ->
  Forall (fun y => contains_char slash y = false) ys ->
  (Section_eq (Section_init xs) (Section_init ys) = true <-> xs = ys)
  /\ (forall bs be bs' be',
        Section_eq (mkSect (elements (Section_init xs)) bs be)
                   (mkSect (elements (Section_init ys)) bs' be')
        = Section_eq (Section_init xs) (Section_init ys)).
Proof.
  intros Hx Hy Fx Fy. split; [|reflexivity].
  unfold Section_eq. rewrite String.eqb_eq, !Section_str_init. split.
  - intros H. rewrite <- (split_join xs), <- (split_join ys) by assumption.
    now rewrite H.
  - now intros ->.
Qed.

(** ** The string form of a Pattern compiles to the Pattern *)

Lemma replace_backslash_free s :
  contains_char backslash s = false -> replace_backslash s = s.
Proof.
  induction s as [|a s IH]; intros H; [reflexivity|].
  cbn [contains_char] in H. apply orb_false_iff in H. destruct H as [Ha Hs].
  cbn [replace_backslash]. rewrite Ascii.eqb_sym, Ha. now rewrite IH.
Qed.

Lemma single_slashes_cons a b r :
  single_slashes (String a (String b r))
  = negb (Ascii.eqb a slash && Ascii.eqb b slash)
    && single_slashes (String b r).
Proof. reflexivity. Qed.

Lemma replace_double_slash_single s :
  single_slashes s = true -> replace_double_slash s = s.
Proof.
  induction s as [|a s IH]; [reflexivity|].
  destruct s as [|b s].
  - reflexivity.
  - intros H. rewrite single_slashes_cons in H. apply andb_true_iff in H.
    destruct H as [H1 H2].
    change (replace_double_slash (String a (String b s)))
      with (if Ascii.eqb a slash && Ascii.eqb b slash
            then String slash (replace_double_slash s)
            else String a (replace_double_slash (String b s))).
    apply negb_true_iff in H1. rewrite H1. now rewrite IH.
Qed.

Lemma single_slashes_free s :
  contains_char slash s = false -> single_slashes s = true.
Proof.
  induction s as [|a s IH]; [reflexivity|].
  intros H. cbn [contains_char] in H. apply orb_false_iff in H.
  destruct H as [Ha Hs].
  destruct s as [|b s]; [reflexivity|].
  rewrite single_slashes_cons, (Ascii.eqb_sym a), Ha. cbn [andb negb].
  now apply IH.
Qed.

Lemma single_slashes_app x t :
  contains_char slash x = false ->
  no_leading_slash t = true -> single_slashes t = true ->
  single_slashes (String.append x (String slash t)) = true.
Proof.
  intros Hx Ht Hc. induction x as [|a x IH].
  - rewrite append_nil_l. destruct t as [|b t]; [discriminate|].
    rewrite single_slashes_cons. cbn [no_leading_slash] in Ht.
    apply negb_true_iff in Ht.
    rewrite Ht, andb_false_r. cbn [andb negb]. exact Hc.
  - cbn [contains_char] in Hx. apply orb_false_iff in Hx. destruct Hx as [Ha Hx].
    rewrite append_cons. specialize (IH Hx).
    destruct (String.append x (String slash t)) as [|b r] eqn:E; [reflexivity|].
    rewrite single_slashes_cons, (Ascii.eqb_sym a), Ha. cbn [andb negb].
    exact IH.
Qed.

Lemma no_leading_slash_app x t :
  x <> EmptyString -> contains_char slash x = false ->
  no_leading_slash (String.append x t) = true.
Proof.
  destruct x as [|a x]; [congruence|]. intros _ H. cbn [contains_char] in H.
  apply orb_false_iff in H. destruct H as [Ha _].
  rewrite append_cons. cbn [no_leading_slash]. now rewrite Ascii.eqb_sym, Ha.
Qed.

Lemma no_leading_slash_join (l : list string) :
  l <> [] ->
  Forall (fun x => x <> EmptyString /\ contains_char slash x = false) l ->
  no_leading_slash (join "/" l) = true.
Proof.
  intros Hne Hall. destruct l as [|x l]; [congruence|].
  inversion Hall as [|? ? [Hx1 Hx2] _]; subst.
  destruct l as [|y l].
  - cbn [join]. rewrite <- (append_empty_r x). now apply no_leading_slash_app.
  - change (join "/" (x :: y :: l))
      with (String.append x (String slash (join "/" (y :: l)))).
    now apply no_leading_slash_app.
Qed.

Lemma single_slashes_join_tail (l : list string) :
  Forall (fun x => x <> EmptyString /\ contains_char slash x = false) l ->
  single_slashes (join "/" l) = true.
Proof.
  induction l as [|x l IH]; intros Hall; [reflexivity|].
  inversion Hall as [|? ? [Hx1 Hx2] Hl]; subst.
  destruct l as [|y l].
  - cbn [join]. now apply single_slashes_free.
  - change (join "/" (x :: y :: l))
      with (String.append x (String slash (join "/" (y :: l)))).
    apply single_slashes_app; [assumption | | now apply IH].
    apply no_leading_slash_join; [discriminate | assumption].
Qed.

(** The first item may be empty: a leading separator. *)
Lemma single_slashes_join (x : string) (l : list string) :
  contains_char slash x = false ->
  Forall (fun y => y <> EmptyString /\ contains_char slash y = false) l ->
  single_slashes (join "/" (x :: l)) = true.
Proof.
  intros Hx Hall. destruct l as [|y l].
  - cbn [join]. now apply single_slashes_free.
  - change (join "/" (x :: y :: l))
      with (String.append x (String slash (join "/" (y :: l)))).
    apply single_slashes_app; [assumption | | now apply single_slashes_join_tail].
    apply no_leading_slash_join; [discriminate | assumption].
Qed.

Lemma contains_char_join c (l : list string) :
  Ascii.eqb c slash = false ->
  Forall (fun x => contains_char c x = false) l ->
  contains_char c (join "/" l) = false.
Proof.
  intros Hc. induction l as [|x l IH]; intros Hall; [reflexivity|].
  inversion Hall as [|? ? Hx Hl]; subst.
  destruct l as [|y l]; [exact Hx|].
  change (join "/" (x :: y :: l))
    with (String.append x (String slash (join "/" (y :: l)))).
  rewrite contains_char_app, Hx. cbn [contains_char orb]. rewrite Hc.
  now apply IH.
Qed.

(** Cutting the joined string at its separators gives the items back, when
    they hold no separator and only the first may be empty. *)
Lemma glob_elements_join (x : string) (l : list string) :
  contains_char slash x = false -> contains_char backslash x = false ->
  Forall (fun y => y <> EmptyString /\ contains_char slash y = false
                   /\ contains_char backslash y = false) l ->
  glob_elements (join "/" (x :: l)) = x :: l.
Proof.
  intros Hs Hb Hall. unfold glob_elements.
  rewrite replace_backslash_free.
  - rewrite replace_double_slash_single.
    + apply split_join; [discriminate|]. constructor; [assumption|].
      eapply List.Forall_impl; [|exact Hall]. cbv beta. tauto.
    + apply single_slashes_join; [assumption|].
      eapply List.Forall_impl; [|exact Hall]. cbv beta. tauto.
  - apply contains_char_join; [reflexivity|]. constructor; [assumption|].
    eapply List.Forall_impl; [|exact Hall]. cbv beta. tauto.
Qed.
Lemma split_sections_fragments elems : forall fragment,
  split_sections elems fragment = map Section_init (fragments elems fragment).
Proof.
  induction elems as [|e elems IH]; intros fragment; simpl.
  - now destruct fragment.
  - destruct (String.eqb e "**"); [|apply IH].
    destruct fragment; [apply IH|]. simpl. now rewrite IH.
Qed.

Lemma fragments_runs elems : forall fragment,
  (forall e, In e fragment -> e <> "**"%string) ->
  Forall (fun f => run f /\ forall e, In e f -> In e elems \/ In e fragment)
         (fragments elems fragment).
Proof.
  induction elems as [|x elems IH]; intros fragment Hf; simpl.
  - destruct fragment as [|y ys]; constructor; [|constructor].
    split; [split; [discriminate | assumption]|]. intros e He. now right.
  - destruct (String.eqb_spec x "**") as [->|Hx].
    + assert (Hrest : Forall (fun f => run f /\ forall e, In e f ->
                                 In e ("**"%string :: elems) \/ In e fragment)
                        (fragments elems [])).
      { eapply List.Forall_impl; [|apply (IH []); intros e []].
        intros f [Hr Hin]. split; [assumption|]. intros e He.
        destruct (Hin e He) as [H|[]]. left. now right. }
      destruct fragment as [|y ys]; [assumption|].
      constructor; [|assumption].
      split; [split; [discriminate | assumption]|]. intros e He. now right.
    + eapply List.Forall_impl; [|apply (IH (fragment ++ [x]))].
      * intros f [Hr Hin]. split; [assumption|]. intros e He.
        destruct (Hin e He) as [H|H]; [left; now right|].
        apply in_app_or in H. destruct H as [H|[<-|[]]]; [now right|].
        left. now left.
      * intros e He. apply in_app_or in He. destruct He as [He|[<-|[]]];
          [now apply Hf | assumption].
Qed.

Lemma fragments_run_app f : forall rest fragment,
  (forall e, In e f -> e <> "**"%string) ->
  fragments (f ++ rest) fragment = fragments rest (fragment ++ f).
Proof.
  induction f as [|x f IH]; intros rest fragment Hf.
  - now rewrite app_nil_r.
  - simpl. destruct (String.eqb_spec x "**") as [Hx|Hx].
    + exfalso. apply (Hf x); [now left | assumption].
    + rewrite IH by (intros e He; apply Hf; now right).
      now rewrite <- List.app_assoc.
Qed.

Lemma fragments_star rest f :
  f <> [] ->
  fragments ("**"%string :: rest) f = f :: fragments rest [].
Proof. destruct f; [congruence|]. reflexivity. Qed.

(** Cutting the interleaved runs at the double stars gives the runs back. *)
Lemma fragments_interleave frags : forall post,
  Forall run frags ->
  post = [] \/ post = ["**"%string] ->
  fragments (interleave frags ++ post) [] = frags.
Proof.
  induction frags as [|f frags IH]; intros post Hall Hpost.
  - destruct Hpost as [->| ->]; reflexivity.
  - inversion Hall as [|? ? [Hne Hstar] Hrest]; subst.
    destruct frags as [|g frags].
    + cbn [interleave]. rewrite fragments_run_app by assumption.
      rewrite app_nil_l. destruct Hpost as [->| ->].
      * destruct f; [congruence | reflexivity].
      * now rewrite fragments_star.
    + change (interleave (f :: g :: frags))
        with (f ++ "**"%string :: interleave (g :: frags)).
      rewrite <- List.app_assoc, fragments_run_app by assumption.
      rewrite app_nil_l, <- List.app_comm_cons, fragments_star by assumption.
      now rewrite IH.
Qed.

Lemma interleave_not_nil frags :
  Forall run frags -> frags <> [] -> interleave frags <> [].
Proof.
  intros Hall Hne. destruct frags as [|f frags]; [congruence|].
  inversion Hall as [|? ? [Hf _] _]; subst.
  destruct frags; cbn [interleave]; [assumption|].
  destruct f; [congruence | discriminate].
Qed.

Lemma interleave_In frags e :
  In e (interleave frags) ->
  e = "**"%string \/ exists f, In f frags /\ In e f.
Proof.
  induction frags as [|f frags IH]; [intros []|].
  destruct frags as [|g frags].
  - cbn [interleave]. intros H. right. exists f. split; [now left | assumption].
  - change (interleave (f :: g :: frags))
      with (f ++ "**"%string :: interleave (g :: frags)).
    intros H. apply in_app_or in H. destruct H as [H|[<-|H]].
    + right. exists f. split; [now left | assumption].
    + now left.
    + destruct (IH H) as [->|(f' & Hf' & He)]; [now left|].
      right. exists f'. split; [now right | assumption].
Qed.

(** The last element of the interleaved runs is not a double star. *)
Lemma interleave_last frags :
  Forall run frags -> frags <> [] ->
  exists front x, interleave frags = front ++ [x] /\ x <> "**"%string.
Proof.
  induction frags as [|f frags IH]; intros Hall Hne; [congruence|].
  inversion Hall as [|? ? [Hf Hstar] Hrest]; subst.
  destruct frags as [|g frags].
  - cbn [interleave]. destruct (exists_last Hf) as (front & x & ->).
    exists front, x. split; [reflexivity|]. apply Hstar.
    apply in_or_app. right. now left.
  - destruct (IH Hrest) as (front & x & E & Hx); [discriminate|].
    change (interleave (f :: g :: frags))
      with (f ++ "**"%string :: interleave (g :: frags)).
    rewrite E. exists (f ++ "**"%string :: front), x.
    split; [|assumption]. now rewrite <- List.app_assoc.
Qed.

(** The first element of the interleaved runs is not a double star. *)
Lemma interleave_first frags :
  Forall run frags -> frags <> [] ->
  exists x back, interleave frags = x :: back /\ x <> "**"%string.
Proof.
  intros Hall Hne. destruct frags as [|f frags]; [congruence|].
  inversion Hall as [|? ? [Hf Hstar] _]; subst.
  destruct f as [|x f]; [congruence|].
  destruct frags as [|g frags].
  - exists x, f. split; [reflexivity|]. apply Hstar. now left.
  - exists x, (f ++ "**"%string :: interleave (g :: frags)).
    split; [reflexivity|]. apply Hstar. now left.
Qed.

Lemma join_interleave frags :
  Forall run frags ->
  join "/" (interleave frags) = join "/**/" (map (join "/") frags).
Proof.
  induction frags as [|f frags IH]; intros Hall; [reflexivity|].
  inversion Hall as [|? ? [Hf _] Hrest]; subst.
  destruct frags as [|g frags]; [reflexivity|].
  change (interleave (f :: g :: frags))
    with (f ++ "**"%string :: interleave (g :: frags)).
  rewrite join_app by (assumption || discriminate).
  assert (Hi : interleave (g :: frags) <> [])
    by (apply interleave_not_nil; [assumption | discriminate]).
  destruct (interleave (g :: frags)) as [|y ys] eqn:E; [congruence|].
  change (join "/" ("**"%string :: y :: ys))
    with (String.append "**" (String.append "/" (join "/" (y :: ys)))).
  rewrite (IH Hrest).
  change (map (join "/") (f :: g :: frags))
    with (join "/" f :: join "/" g :: map (join "/") frags).
  change (join "/**/" (join "/" f :: join "/" g :: map (join "/") frags))
    with (String.append (join "/" f)
            (String.append "/**/"
               (join "/**/" (join "/" g :: map (join "/") frags)))).
  reflexivity.
Qed.

(** ** _simplify on elements it has nothing to remove from *)

Lemma stars_apart_run f : forall after_star rest,
  run f -> stars_apart false rest -> stars_apart after_star (f ++ rest).
Proof.
  intros after_star rest [Hne Hstar] Hrest.
  revert after_star. induction f as [|x f IH]; intros after_star; [congruence|].
  assert (Hx : String.eqb x "**" = false).
  { apply String.eqb_neq. apply Hstar. now left. }
  cbn [app stars_apart]. rewrite Hx. split; [discriminate|].
  destruct f as [|y f]; [exact Hrest|].
  apply IH; [discriminate|]. intros e He. apply Hstar. now right.
Qed.

Lemma stars_apart_interleave frags : forall after_star rest,
  Forall run frags -> frags <> [] ->
  stars_apart false rest ->
  stars_apart after_star (interleave frags ++ rest).
Proof.
  induction frags as [|f frags IH]; intros after_star rest Hall Hne Hrest;
    [congruence|].
  inversion Hall as [|? ? Hf Hfrags]; subst.
  destruct frags as [|g frags].
  - cbn [interleave]. now apply stars_apart_run.
  - change (interleave (f :: g :: frags))
      with (f ++ "**"%string :: interleave (g :: frags)).
    rewrite <- List.app_assoc. apply stars_apart_run; [assumption|].
    rewrite <- List.app_comm_cons. cbn [stars_apart].
    split; [reflexivity|]. change (String.eqb "**" "**") with true.
    apply IH; [assumption | discriminate | assumption].
Qed.

Lemma simplify_loop_plain (l : list string) :
  (forall s, normcase s = s) ->
  forall simplified previous,
    (forall e, In e l -> e <> "."%string /\ e <> ".."%string) ->
    stars_apart (opt_is previous "**") l ->
    simplify_loop l simplified previous = Ok (simplified ++ l).
Proof.
  intros Hnorm. induction l as [|e l IH]; intros simplified previous Hdots Hstars.
  - now rewrite app_nil_r.
  - cbn [simplify_loop]. destruct (Hdots e) as [H1 H2]; [now left|].
    apply String.eqb_neq in H1, H2. rewrite H1, H2.
    cbn [stars_apart] in Hstars. destruct Hstars as [Hs Hrest].
    assert (Hdup : String.eqb e "**" && opt_is previous "**" = false).
    { destruct (String.eqb e "**"); [|reflexivity]. now rewrite Hs. }
    rewrite Hdup, Hnorm. rewrite IH.
    + now rewrite <- List.app_assoc.
    + intros x Hx. apply Hdots. now right.
    + exact Hrest.
Qed.

Lemma in_removelast {A} (l : list A) x : In x (removelast l) -> In x l.
Proof.
  induction l as [|y l IH]; [intros []|].
  destruct l as [|z l]; [intros []|].
  change (removelast (y :: z :: l)) with (y :: removelast (z :: l)).
  intros [<-|H]; [now left | right; now apply IH].
Qed.

(** The parts [Pattern.__init__] cuts its argument into. *)
Lemma Pattern_init_parts elems p :
  Pattern_init elems = Ok p ->
  exists directory : list string,
    sections p = bind_sections (p_bound_start p) (p_bound_end p)
                   (split_sections directory [])
    /\ (forall e, In e directory -> In e elems)
    /\ (file_pattern p = "*"%string
        \/ exists last, In last elems /\ last <> "**"%string
                        /\ file_pattern p = normcase last)
    /\ (split_sections directory [] = [] -> p_bound_end p = p_bound_start p).
Proof.
  unfold Pattern_init. intros H.
  destruct elems as [|x xs]; [discriminate|].
  rewrite py_index_first in H. unfold bind at 1 in H.
  destruct (py_index (x :: xs) (-1)) as [last|] eqn:L; unfold bind at 1 in H;
    [|discriminate].
  destruct (negb (String.eqb last "**")) eqn:B.
  - assert (Hlast : exists l0, In l0 (x :: xs) /\ l0 <> "**"%string
                              /\ normcase last = normcase l0).
    { exists last. split; [now apply py_index_In in L|]. split; [|reflexivity].
      apply negb_true_iff in B. now apply String.eqb_neq. }
    destruct (removelast (x :: xs)) as [|y ys] eqn:E; unfold bind in H.
    + injection H as <-. exists (@nil string). cbn [sections p_bound_start p_bound_end file_pattern].
      split; [reflexivity|]. split; [intros e []|]. split; [now right | reflexivity].
    + destruct (py_index (y :: ys) (-1)) as [l2|] eqn:L2; [|discriminate].
      injection H as <-. exists (y :: ys).
      cbn [sections p_bound_start p_bound_end file_pattern].
      split; [reflexivity|]. split.
      { intros e He. apply in_removelast. now rewrite E. }
      split; [now right|].
      intros Hnil. apply split_sections_nil in Hnil. destruct Hnil as [_ Hall].
      apply removelast_head in E. subst y.
      rewrite (Hall x) by (now left).
      rewrite (Hall l2) by (now apply py_index_In in L2). reflexivity.
  - destruct (py_index (x :: xs) (-1)) as [l2|] eqn:L2; unfold bind in H;
      [|discriminate].
    injection H as <-. exists (x :: xs).
    cbn [sections p_bound_start p_bound_end file_pattern].
    split; [reflexivity|]. split; [tauto|]. split; [now left|].
    intros Hnil. apply split_sections_nil in Hnil. destruct Hnil as [_ Hall].
    rewrite (Hall x) by (now left).
    rewrite (Hall l2) by (now apply py_index_In in L2). reflexivity.
Qed.

Lemma Section_str_bind_first secs :
  map Section_str (bind_first secs) = map Section_str secs.
Proof. now destruct secs. Qed.

Lemma Section_str_bind_last secs :
  map Section_str (bind_last secs) = map Section_str secs.
Proof.
  induction secs as [|s secs IH]; [reflexivity|].
  destruct secs as [|s' secs]; [reflexivity|].
  change (bind_last (s :: s' :: secs)) with (s :: bind_last (s' :: secs)).
  cbn [map]. cbn [map] in IH. now rewrite IH.
Qed.

Lemma Section_str_bind_sections bs be frags :
  map Section_str (bind_sections bs be (map Section_init frags))
  = map (join "/") frags.
Proof.
  unfold bind_sections.
  assert (H : map Section_str (map Section_init frags) = map (join "/") frags).
  { induction frags as [|f frags IH]; [reflexivity|].
    cbn [map]. now rewrite Section_str_init, IH. }
  destruct be, bs;
    rewrite ?Section_str_bind_last, ?Section_str_bind_first; exact H.
Qed.

(** The tail of the directory part: a double star when the Pattern has
    sections and is not bound at the end. *)
Lemma to_string_elements p (frags : list (list string)) :
  sections p = bind_sections (p_bound_start p) (p_bound_end p)
                 (map Section_init frags) ->
  Forall run frags ->
  (frags = [] -> p_bound_end p = p_bound_start p) ->
  Pattern_to_string p
  = join "/" ((if p_bound_start p then EmptyString else "**"%string)
              :: directory_elements true (p_bound_end p) frags
                 ++ [file_pattern p]).
Proof.
  intros Hsec Hruns Hnil.
  pose proof (Section_str_bind_sections (p_bound_start p) (p_bound_end p) frags)
    as Hmap.
  rewrite <- Hsec in Hmap. unfold Pattern_to_string, directory_elements.
  destruct frags as [|f frags].
  - destruct (sections p) as [|s0 r0]; [|discriminate].
    rewrite (Hnil eq_refl). now destruct (p_bound_start p).
  - destruct (sections p) as [|s0 r0]; [discriminate|].
    rewrite Hmap, <- (join_interleave (f :: frags)) by assumption.
    assert (Hi : interleave (f :: frags) <> [])
      by (apply interleave_not_nil; [assumption | discriminate]).
    cbn [app].
    destruct (interleave (f :: frags)) as [|y ys] eqn:E; [congruence|].
    set (J := join "/" (y :: ys)).
    assert (HJ : forall tail, tail <> [] ->
              join "/" ((y :: ys) ++ tail)
              = String.append J (String.append "/" (join "/" tail))).
    { intros tail Ht. now apply join_app. }
    rewrite <- List.app_assoc.
    change (join "/" (?x :: (y :: ys) ++ ?t))
      with (String.append x (String.append "/" (join "/" ((y :: ys) ++ t)))).
    rewrite HJ by (destruct (p_bound_end p); discriminate).
    destruct (p_bound_start p), (p_bound_end p); reflexivity.
Qed.
Lemma directory_elements_In bs be frags e :
  In e (directory_elements bs be frags) ->
  e = "**"%string \/ exists f, In f frags /\ In e f.
Proof.
  unfold directory_elements. intros H.
  apply in_app_or in H. destruct H as [H|H].
  { destruct bs; [destruct H|]. destruct H as [<-|[]]. now left. }
  apply in_app_or in H. destruct H as [H|H]; [now apply interleave_In|].
  destruct be; [destruct H|]. destruct frags; [destruct H|].
  destruct H as [<-|[]]. now left.
Qed.

Lemma stars_apart_body be frags fp after_star :
  Forall run frags -> fp <> "**"%string ->
  stars_apart after_star (directory_elements true be frags ++ [fp]).
Proof.
  intros Hruns Hfp. apply String.eqb_neq in Hfp.
  assert (Hlast : forall b, stars_apart b [fp]).
  { intros b. cbn [stars_apart]. rewrite Hfp. split; [discriminate | exact I]. }
  unfold directory_elements. cbn [app]. rewrite <- List.app_assoc.
  destruct frags as [|f frags].
  - cbn [interleave app]. destruct be; apply Hlast.
  - apply stars_apart_interleave; [assumption | discriminate |].
    destruct be; [apply Hlast|].
    cbn [app stars_apart]. change (String.eqb "**" "**") with true.
    split; [reflexivity|]. rewrite Hfp. split; [discriminate | exact I].
Qed.

Lemma plain_star : plain_component "**".
Proof. repeat split; discriminate. Qed.

(** [_simplify] on the elements of a string form: the empty first element
    of a glob bound at the start goes, everything else stays. *)
Lemma simplify_canonical bs be frags fp :
  (forall s, normcase s = s) ->
  Forall run frags ->
  (forall f e, In f frags -> In e f -> plain_component e) ->
  plain_component fp -> fp <> "**"%string ->
  Pattern_simplify ((if bs : bool then EmptyString else "**"%string)
                    :: directory_elements true be frags ++ [fp])
  = Ok (directory_elements bs be frags ++ [fp]).
Proof.
  intros Hnorm Hruns Hplain Hfp Hstar.
  set (lead := if bs then EmptyString else "**"%string).
  set (body := directory_elements true be frags).
  unfold Pattern_simplify.
  rewrite (simplify_loop_plain (lead :: body ++ [fp]) Hnorm [] None).
  - rewrite app_nil_l. unfold bind at 1.
    change (lead :: body ++ [fp]) with ((lead :: body) ++ [fp]) at 1.
    rewrite py_index_app_last. unfold bind at 1.
    assert (Hne : String.eqb fp EmptyString = false).
    { apply String.eqb_neq. apply Hfp. }
    rewrite Hne, py_index_first. unfold bind.
    subst lead body. unfold directory_elements. destruct bs; reflexivity.
  - intros e [<-|He].
    + subst lead. destruct bs; split; discriminate.
    + apply in_app_or in He. destruct He as [He|[<-|[]]]; [|split; apply Hfp].
      apply directory_elements_In in He.
      destruct He as [->|(f & Hf & He)]; [split; discriminate|].
      split; apply (Hplain f e Hf He).
  - cbn [opt_is stars_apart]. subst lead body. destruct bs.
    + change (String.eqb EmptyString "**") with false.
      split; [discriminate|]. now apply stars_apart_body.
    + change (String.eqb "**" "**") with true.
      split; [reflexivity|]. now apply stars_apart_body.
Qed.

(** [Pattern.__init__] on the elements of a string form gives the Pattern
    the string form was made from. *)
Lemma Pattern_init_canonical bs be frags fp :
  (forall s, normcase s = s) ->
  Forall run frags -> fp <> "**"%string ->
  (frags = [] -> be = bs) ->
  Pattern_init (directory_elements bs be frags ++ [fp])
  = Ok {| sections := bind_sections bs be (map Section_init frags);
          p_bound_start := bs; p_bound_end := be; file_pattern := fp |}.
Proof.
  intros Hnorm Hruns Hstar Hnil.
  set (D := directory_elements bs be frags).
  assert (Hfp : String.eqb fp "**" = false) by now apply String.eqb_neq.
  assert (Hh : exists x, py_index (D ++ [fp]) 0 = Ok x
                         /\ String.eqb x "**" = negb bs).
  { subst D. unfold directory_elements. destruct bs.
    - cbn [app]. destruct frags as [|f frags].
      + rewrite (Hnil eq_refl). cbn [interleave app]. exists fp.
        now rewrite py_index_first.
      + destruct (interleave_first (f :: frags)) as (x & back & -> & Hx);
          [assumption | discriminate |].
        exists x. cbn [app]. rewrite py_index_first. split; [reflexivity|].
        now apply String.eqb_neq.
    - exists "**"%string. cbn [app]. now rewrite py_index_first. }
  assert (Hl : match D with
               | [] => Ok bs
               | _ :: _ => let* last := py_index D (-1) in
                           Ok (negb (String.eqb last "**"))
               end = Ok be).
  { assert (Hcons : forall (X : list string) x,
              String.eqb x "**" = negb be ->
              match X ++ [x] with
              | [] => Ok bs
              | _ :: _ => let* last := py_index (X ++ [x]) (-1) in
                          Ok (negb (String.eqb last "**"))
              end = Ok be).
    { intros X x Hx. rewrite py_index_app_last. unfold bind. rewrite Hx.
      rewrite negb_involutive. now destruct X. }
    subst D. unfold directory_elements. destruct frags as [|f frags].
    - rewrite (Hnil eq_refl). destruct bs; reflexivity.
    - destruct (interleave_last (f :: frags)) as (front & x & -> & Hx);
        [assumption | discriminate |].
      apply String.eqb_neq in Hx. destruct be.
      + rewrite app_nil_r, List.app_assoc. now apply Hcons.
      + rewrite !List.app_assoc. now apply Hcons. }
  assert (Hf : fragments D [] = frags).
  { subst D. unfold directory_elements.
    assert (Hi : fragments (interleave frags
                  ++ (if be then []
                      else match frags with [] => [] | _ :: _ => ["**"%string] end))
                  [] = frags).
    { apply fragments_interleave; [assumption|].
      destruct be; [now left|]. destruct frags; [now left | now right]. }
    destruct bs; [exact Hi|]. exact Hi. }
  destruct Hh as (x & Hx & Hbs).
  unfold Pattern_init. rewrite Hx. unfold bind at 1.
  rewrite py_index_app_last. unfold bind at 1.
  rewrite Hfp, Hbs, negb_involutive. cbn [negb].
  rewrite List.removelast_last, Hl. unfold bind.
  now rewrite split_sections_fragments, Hf, Hnorm.
Qed.

Lemma create_canonical fresh bs be frags fp :
  (forall s, normcase s = s) ->
  Forall run frags ->
  (forall f e, In f frags -> In e f -> plain_component e) ->
  plain_component fp -> fp <> "**"%string ->
  (frags = [] -> be = bs) ->
  Pattern_create fresh
    (join "/" ((if bs : bool then EmptyString else "**"%string)
               :: directory_elements true be frags ++ [fp]))
  = Ok (APattern
          {| sections := bind_sections bs be (map Section_init frags);
             p_bound_start := bs; p_bound_end := be; file_pattern := fp |}).
Proof.
  intros Hnorm Hruns Hplain Hfp Hstar Hnil.
  unfold Pattern_create. rewrite glob_elements_join.
  - rewrite simplify_canonical by assumption. unfold bind at 1.
    rewrite py_index_app_last, Pattern_init_canonical by assumption.
    assert (Hs : String.eqb fp "**" = false) by now apply String.eqb_neq.
    unfold bind. rewrite Hs.
    now destruct (len (directory_elements bs be frags ++ [fp]) >? 1).
  - now destruct bs.
  - now destruct bs.
  - apply List.Forall_forall. intros e He.
    assert (Hp : plain_component e).
    { apply in_app_or in He. destruct He as [He|[<-|[]]]; [|assumption].
      apply directory_elements_In in He.
      destruct He as [->|(f & Hf & He)]; [apply plain_star|].
      apply (Hplain f e Hf He). }
    destruct Hp as (H1 & H2 & H3 & _). tauto.
Qed.
(** X13. Where os.path.normcase leaves strings as they are, the string form
    of a Pattern compiles back to that Pattern: if Pattern.__init__ builds p
    from elements that are non-empty, hold no slash or backslash and are
    neither "." nor "..", then Pattern.create on Pattern._to_string of p
    returns a single Pattern equal to p, field by field. *)
Theorem to_string_round_trip (fresh : nat) (elems : list string) (p : Pattern) :
  (forall s, normcase s = s) ->
  Pattern_init elems = Ok p ->
  Forall plain_component elems ->
  Pattern_create fresh (Pattern_to_string p) = Ok (APattern p).
Proof.
  intros Hnorm Hinit Hplain.
  destruct (Pattern_init_parts elems p Hinit)
    as (directory & Hsec & Hin & Hfp & Hnil).
  rewrite split_sections_fragments in Hsec, Hnil.
  set (frags := fragments directory []) in *.
  assert (Hfr : Forall (fun f => run f /\ forall e, In e f -> In e elems) frags).
  { eapply List.Forall_impl; [|apply (fragments_runs directory []); intros e []].
    cbv beta. intros f [Hrun Hf]. split; [assumption|].
    intros e He. destruct (Hf e He) as [H|[]]. now apply Hin. }
  assert (Hruns : Forall run frags).
  { eapply List.Forall_impl; [|exact Hfr]. cbv beta. tauto. }
  assert (Hels : forall f e, In f frags -> In e f -> plain_component e).
  { intros f e Hf He. rewrite List.Forall_forall in Hfr, Hplain.
    apply Hplain. now apply (Hfr f Hf). }
  assert (Hnil' : frags = [] -> p_bound_end p = p_bound_start p).
  { intros E. apply Hnil. now rewrite E. }
  assert (Hfile : plain_component (file_pattern p)
                  /\ file_pattern p <> "**"%string).
  { destruct Hfp as [->|(last & Hl & Hs & ->)].
    - split; [repeat split; discriminate | discriminate].
    - rewrite Hnorm. split; [|assumption].
      rewrite List.Forall_forall in Hplain. now apply Hplain. }
  destruct Hfile as [Hfile Hstar].
  rewrite (to_string_elements p frags Hsec Hruns Hnil').
  rewrite create_canonical by assumption.
  rewrite <- Hsec. now destruct p.
Qed.

(** *** The walk over a list of file names *)

Lemma Tree_induction (P : Tree -> Prop) :
  (forall files dirs, Forall (fun d => P (snd d)) dirs -> P (Node files dirs)) ->
  forall tree, P tree.
Proof.
  intros H. fix IH 1. intros [files dirs]. apply H.
  induction dirs as [|[name sub] dirs IHdirs]; constructor;
    [apply IH | exact IHdirs].
Qed.

Lemma attach_split branch files dirs :
  attach branch (Node files dirs)
  = match split_once branch with
    | (file, None) => Node (files ++ [file]) dirs
    | (node, Some others) => Node files (at_node node (attach others) dirs)
    end.
Proof.
  rewrite attach_equation_1. unfold inspect.
  assert (H : forall p (e : split_once branch = p),
            attach_unfold_clause_1 branch (exist _ p e) files dirs
            = match p with
              | (file, None) => Node (files ++ [file]) dirs
              | (node, Some others) =>
                  Node files (at_node node (attach others) dirs)
              end).
  { intros [file [others|]] e; reflexivity. }
  apply H.
Qed.

Lemma split_once_split_on branch :
  split_on slash branch
  = match split_once branch with
    | (file, None) => [file]
    | (node, Some others) => node :: split_on slash others
    end.
Proof.
  induction branch as [|c rest IH]; [reflexivity|].
  cbn [split_on split_once]. destruct (Ascii.eqb c slash); [reflexivity|].
  rewrite IH. destruct (split_once rest) as [node [others|]]; reflexivity.
Qed.

Lemma at_node_ext node (f g : Tree -> Tree) dirs :
  (forall t, f t = g t) -> at_node node f dirs = at_node node g dirs.
Proof.
  intros H. induction dirs as [|[name sub] dirs IH]; cbn [at_node].
  - now rewrite H.
  - destruct (String.eqb name node); [now rewrite H | now rewrite IH].
Qed.

(** [attach] goes down one component of the branch at a time. *)
Lemma attach_attach_parts branch : forall trunk,
  attach branch trunk = attach_parts (split_on slash branch) trunk.
Proof.
  remember (String.length branch) as n eqn:Hn.
  revert branch Hn. induction n as [n IH] using lt_wf_ind.
  intros branch -> [files dirs].
  rewrite attach_split, split_once_split_on.
  destruct (split_once branch) as [node [others|]] eqn:E; [|reflexivity].
  assert (Hlt : (String.length others < String.length branch)%nat).
  { clear IH. revert node E.
    induction branch as [|c rest IHb]; intros node; [discriminate|].
    cbn [split_once String.length]. destruct (Ascii.eqb c slash).
    - intros [= <- <-]. lia.
    - destruct (split_once rest) as [n o]. intros [= <- ->].
      specialize (IHb n eq_refl). lia. }
  pose proof (split_on_not_nil slash others) as Hne.
  destruct (split_on slash others) as [|o os] eqn:S; [congruence|].
  cbn [attach_parts tree_files tree_dirs]. f_equal.
  apply at_node_ext. intros t. rewrite (IH _ Hlt others eq_refl), S.
  reflexivity.
Qed.

Lemma at_node_changed node change dirs :
  exists sub, In (node, change sub) (at_node node change dirs).
Proof.
  induction dirs as [|[name sub] dirs IH]; cbn [at_node].
  - exists new_tree. now left.
  - destruct (String.eqb_spec name node) as [->|Hne].
    + exists sub. now left.
    + destruct IH as (sub' & H). exists sub'. now right.
Qed.

Lemma at_node_kept node change dirs d sub :
  In (d, sub) dirs ->
  In (d, sub) (at_node node change dirs)
  \/ In (d, change sub) (at_node node change dirs).
Proof.
  induction dirs as [|[name sub'] dirs IH]; [intros []|].
  cbn [at_node]. intros [[= -> ->]|H].
  - destruct (String.eqb d node); [right | left]; now left.
  - destruct (String.eqb name node).
    + left. now right.
    + destruct (IH H) as [H'|H']; [left | right]; now right.
Qed.

Lemma attach_parts_keeps parts : forall trunk ds name,
  holds ds name trunk -> holds ds name (attach_parts parts trunk).
Proof.
  induction parts as [|part parts IH]; intros [files dirs] ds name H;
    [exact H|].
  destruct parts as [|o os].
  - cbn [attach_parts tree_files tree_dirs].
    destruct ds as [|d ds]; cbn [holds tree_files tree_dirs] in *.
    + apply in_or_app. now left.
    + exact H.
  - change (attach_parts (part :: o :: os) (Node files dirs))
      with (Node files (at_node part (attach_parts (o :: os)) dirs)).
    destruct ds as [|d ds]; cbn [holds tree_files tree_dirs] in *; [exact H|].
    destruct H as (sub & Hin & Hsub).
    destruct (at_node_kept part (attach_parts (o :: os)) dirs d sub Hin)
      as [H'|H'].
    + now exists sub.
    + exists (attach_parts (o :: os) sub). split; [assumption|]. now apply IH.
Qed.

Lemma attach_parts_holds parts : forall trunk,
  parts <> [] ->
  holds (removelast parts) (List.last parts EmptyString)
        (attach_parts parts trunk).
Proof.
  induction parts as [|part parts IH]; intros [files dirs] Hne; [congruence|].
  destruct parts as [|o os].
  - cbn [attach_parts removelast List.last holds tree_files tree_dirs].
    apply in_or_app. right. now left.
  - change (attach_parts (part :: o :: os) (Node files dirs))
      with (Node files (at_node part (attach_parts (o :: os)) dirs)).
    change (removelast (part :: o :: os)) with (part :: removelast (o :: os)).
    change (List.last (part :: o :: os) EmptyString)
      with (List.last (o :: os) EmptyString).
    cbn [holds tree_dirs].
    destruct (at_node_changed part (attach_parts (o :: os)) dirs) as (sub & H).
    exists (attach_parts (o :: os) sub). split; [assumption|].
    apply IH. discriminate.
Qed.

Lemma list_to_tree_holds files line : forall trunk,
  (In line files ->
   holds (directories line) (file_name line)
         (fold_left (fun tree line => attach line tree) files trunk))
  /\ (forall ds name, holds ds name trunk ->
        holds ds name (fold_left (fun tree line => attach line tree) files trunk)).
Proof.
  induction files as [|l files IH]; intros trunk.
  - split; [intros []|]. now intros ds name H.
  - cbn [fold_left]. destruct (IH (attach l trunk)) as [IH1 IH2]. split.
    + intros [->|H]; [|now apply IH1].
      apply IH2. rewrite attach_attach_parts.
      apply attach_parts_holds, split_on_not_nil.
    + intros ds name H. apply IH2. rewrite attach_attach_parts.
      now apply attach_parts_keeps.
Qed.

Lemma tree_walk_holds path_join ds : forall name tree directory,
  holds ds name tree ->
  exists dirs files,
    In (fold_left path_join ds directory, dirs, files)
       (tree_walk path_join directory tree)
    /\ In name files.
Proof.
  induction ds as [|d ds IH]; intros name [files dirs] directory H.
  - exists (map fst dirs), files. split; [now left | exact H].
  - cbn [holds tree_dirs] in H. destruct H as (sub & Hin & Hsub).
    destruct (IH name sub (path_join directory d) Hsub) as (ds' & fs & Hw & Hn).
    exists ds', fs. split; [|assumption].
    cbn [tree_walk fold_left]. right. apply in_flat_map.
    exists (d, sub). now split.
Qed.

(** X14. walk_from_list finds every listed file: for a path of the list,
    the walk holds a tuple whose directory is the start directory joined
    with the path's components before its last slash, one after the other,
    and whose file names hold the text after the last slash. *)
Theorem walk_from_list_finds (path_join : string -> string -> string)
    (files : list string) (directory line : string) :
  In line files ->
  exists dirs names,
    In (fold_left path_join (directories line) directory, dirs, names)
       (walk_from_list path_join files directory)
    /\ In (file_name line) names.
Proof.
  intros H. apply tree_walk_holds.
  destruct (list_to_tree_holds files line new_tree) as [Hfound _].
  exact (Hfound H).
Qed.

Lemma walk_files_tree path_join tree : forall directory,
  walk_files (tree_walk path_join directory tree) = tree_all_files tree.
Proof.
  induction tree as [files dirs IH] using Tree_induction. intros directory.
  unfold walk_files in *. cbn [tree_walk tree_all_files flat_map snd].
  f_equal. induction dirs as [|[name sub] dirs IHdirs]; [reflexivity|].
  inversion IH as [|? ? Hsub Hrest]; subst.
  cbn [flat_map fst snd]. rewrite flat_map_app. cbn [snd] in Hsub.
  now rewrite Hsub, IHdirs.
Qed.

Lemma at_node_files node change dirs name :
  (forall sub, Permutation (tree_all_files (change sub))
                           (name :: tree_all_files sub)) ->
  Permutation (flat_map (fun d => tree_all_files (snd d))
                        (at_node node change dirs))
              (name :: flat_map (fun d => tree_all_files (snd d)) dirs).
Proof.
  intros H. induction dirs as [|[n sub] dirs IH]; cbn [at_node].
  - cbn [flat_map snd]. rewrite app_nil_r. apply (H new_tree).
  - destruct (String.eqb n node); cbn [flat_map snd].
    + rewrite H. reflexivity.
    + rewrite IH. symmetry. apply Permutation_middle.
Qed.

Lemma attach_parts_files parts : forall trunk,
  parts <> [] ->
  Permutation (tree_all_files (attach_parts parts trunk))
              (List.last parts EmptyString :: tree_all_files trunk).
Proof.
  induction parts as [|part parts IH]; intros [files dirs] Hne; [congruence|].
  destruct parts as [|o os].
  - cbn [attach_parts tree_all_files tree_files tree_dirs List.last].
    rewrite <- List.app_assoc. cbn [app]. symmetry. apply Permutation_middle.
  - change (attach_parts (part :: o :: os) (Node files dirs))
      with (Node files (at_node part (attach_parts (o :: os)) dirs)).
    change (List.last (part :: o :: os) EmptyString)
      with (List.last (o :: os) EmptyString).
    cbn [tree_all_files]. rewrite at_node_files.
    + symmetry. apply Permutation_middle.
    + intros sub. apply IH. discriminate.
Qed.

Lemma list_to_tree_files files : forall trunk,
  Permutation
    (tree_all_files (fold_left (fun tree line => attach line tree) files trunk))
    (tree_all_files trunk ++ map file_name files).
Proof.
  induction files as [|l files IH]; intros trunk; cbn [fold_left map].
  - now rewrite app_nil_r.
  - rewrite IH, attach_attach_parts.
    rewrite attach_parts_files by apply split_on_not_nil.
    apply Permutation_middle.
Qed.

(** X15. walk_from_list neither loses nor invents a file: the file names of
    all tuples of the walk, taken together, are the texts after the last
    slash of the listed paths, each as often as it is listed. *)
Theorem walk_from_list_conserves (path_join : string -> string -> string)
    (files : list string) (directory : string) :
  Permutation (walk_files (walk_from_list path_join files directory))
              (map file_name files).
Proof.
  unfold walk_from_list, list_to_tree.
  rewrite walk_files_tree, list_to_tree_files. reflexivity.
Qed.

Lemma at_node_keys node change dirs name :
  In name (map fst (at_node node change dirs)) ->
  name = node \/ In name (map fst dirs).
Proof.
  induction dirs as [|[n sub] dirs IH]; cbn [at_node].
  - intros [<-|[]]. now left.
  - destruct (String.eqb n node); cbn [map fst].
    + intros H. now right.
    + intros [<-|H]; [right; now left|].
      destruct (IH H) as [->|H']; [now left | right; now right].
Qed.

Lemma at_node_well_keyed node change dirs :
  (forall sub, well_keyed sub -> well_keyed (change sub)) ->
  well_keyed new_tree ->
  List.NoDup (map fst dirs) ->
  Forall (fun d => well_keyed (snd d)) dirs ->
  List.NoDup (map fst (at_node node change dirs))
  /\ Forall (fun d => well_keyed (snd d)) (at_node node change dirs).
Proof.
  intros Hchange Hnew. induction dirs as [|[n sub] dirs IH]; intros Hnd Hall;
    cbn [at_node].
  - split.
    + cbn [map fst]. constructor; [intros [] | constructor].
    + constructor; [now apply Hchange | constructor].
  - inversion Hall as [|? ? Hsub Hrest]; subst.
    cbn [map fst] in Hnd. apply List.NoDup_cons_iff in Hnd.
    destruct Hnd as [Hn Hnd].
    destruct (String.eqb_spec n node) as [->|Hne].
    + split.
      * cbn [map fst]. now constructor.
      * constructor; [now apply Hchange | assumption].
    + destruct (IH Hnd Hrest) as [IH1 IH2]. split.
      * cbn [map fst]. constructor; [|assumption].
        intros Hin. apply at_node_keys in Hin. destruct Hin as [->|Hin];
          [congruence | contradiction].
      * now constructor.
Qed.

Lemma new_tree_well_keyed : well_keyed new_tree.
Proof. constructor; constructor. Qed.

Lemma attach_parts_well_keyed parts : forall trunk,
  well_keyed trunk -> well_keyed (attach_parts parts trunk).
Proof.
  induction parts as [|part parts IH]; intros trunk H; [exact H|].
  inversion H as [files dirs Hnd Hall]; subst.
  destruct parts as [|o os].
  - now constructor.
  - change (attach_parts (part :: o :: os) (Node files dirs))
      with (Node files (at_node part (attach_parts (o :: os)) dirs)).
    destruct (at_node_well_keyed part (attach_parts (o :: os)) dirs)
      as [H1 H2]; try assumption.
    + apply new_tree_well_keyed.
    + now constructor.
Qed.

Lemma list_to_tree_well_keyed files : well_keyed (list_to_tree files).
Proof.
  unfold list_to_tree. generalize new_tree_well_keyed.
  generalize new_tree. induction files as [|l files IH]; intros trunk H;
    [exact H|].
  cbn [fold_left]. apply IH. rewrite attach_attach_parts.
  now apply attach_parts_well_keyed.
Qed.

Lemma tree_walk_shape path_join tree : forall directory dir dirs names,
  well_keyed tree ->
  In (dir, dirs, names) (tree_walk path_join directory tree) ->
  List.NoDup dirs
  /\ forall sub, In sub dirs ->
       exists dirs' names',
         In (path_join dir sub, dirs', names')
            (tree_walk path_join directory tree).
Proof.
  induction tree as [files children IH] using Tree_induction.
  intros directory dir dirs names Hwk Hin.
  inversion Hwk as [? ? Hnd Hall]; subst.
  cbn [tree_walk] in Hin |- *. destruct Hin as [[= <- <- <-]|Hin].
  - split; [assumption|]. intros sub Hsub.
    apply in_map_iff in Hsub. destruct Hsub as ([n t] & <- & Ht).
    destruct t as [fs cs].
    exists (map fst cs), fs. right. apply in_flat_map.
    exists (n, Node fs cs). split; [assumption|]. now left.
  - apply in_flat_map in Hin. destruct Hin as ([n t] & Ht & Hin).
    rewrite List.Forall_forall in IH, Hall.
    destruct (IH (n, t) Ht (path_join directory n) dir dirs names
                (Hall (n, t) Ht) Hin) as [H1 H2].
    split; [assumption|]. intros sub Hsub.
    destruct (H2 sub Hsub) as (dirs' & names' & H').
    exists dirs', names'. right. apply in_flat_map. now exists (n, t).
Qed.

(** X16. The walk of walk_from_list has the shape of os.walk: in every
    tuple the sub-directory names are pairwise different, and each of them,
    joined to the tuple's directory, is the directory of a tuple of the
    walk. *)
Theorem walk_from_list_shape (path_join : string -> string -> string)
    (files : list string) (directory dir : string)
    (dirs names : list string) :
  In (dir, dirs, names) (walk_from_list path_join files directory) ->
  List.NoDup dirs
  /\ forall sub, In sub dirs ->
       exists dirs' names',
         In (path_join dir sub, dirs', names')
            (walk_from_list path_join files directory).
Proof.
  apply tree_walk_shape, list_to_tree_well_keyed.
Qed.

End Engine.

(** * The engine on a POSIX platform: concrete globs and directories *)

(** The samples are what the constructor builds from the elements of their
    globs. *)
Lemma sample_patterns_compiled :
  Pattern_init posix_normcase ["**"; "a"; "**"; "b"; "*"]%string = Ok glob_a_b
  /\ Pattern_init posix_normcase ["test"; "*"]%string = Ok glob_test
  /\ Pattern_init posix_normcase ["**"; "build"; "**"]%string = Ok glob_build
  /\ Pattern_init posix_normcase ["**"; "*.py"]%string = Ok glob_py.
Proof. repeat split. Qed.

(** C7 at a sample: a two-matcher section searched from index 0 in a path of
    four components. *)
Lemma match_iter_contract_witness :
  0 <= 0
  /\ exists ends,
       match_iter posix_normcase posix_fnmatch sample_section
         ["a"; "bc"; "a"; "b"]%string 0 = Ok ends
       /\ StronglySorted Z.lt ends
       /\ (forall i, In i ends <->
             exists j, i = j + length_of sample_section
               /\ 0 <= j
               /\ j + length_of sample_section
                  <= len ["a"; "bc"; "a"; "b"]%string
               /\ (bound_start sample_section = true -> j = 0)
               /\ (bound_end sample_section = true ->
                   j = len ["a"; "bc"; "a"; "b"]%string
                       - length_of sample_section)
               /\ Forall2
                    (fun m e => Matcher_match posix_normcase posix_fnmatch m e = true)
                    (elements sample_section)
                    (py_slice ["a"; "bc"; "a"; "b"]%string j
                       (j + length_of sample_section)))
       /\ _match_iter_generic posix_normcase posix_fnmatch sample_section
            ["a"; "bc"; "a"; "b"]%string 0 = Ok ends
       /\ (length_of sample_section = 1 ->
           _match_iter_single posix_normcase posix_fnmatch sample_section
             ["a"; "bc"; "a"; "b"]%string 0 = Ok ends).
Proof.
  split; [lia|].
  apply (match_iter_contract posix_normcase posix_fnmatch sample_section
           ["a"; "bc"; "a"; "b"]%string 0).
  lia.
Defined.

(** The list the sample yields. *)
Lemma match_iter_sample :
  match_iter posix_normcase posix_fnmatch sample_section
    ["a"; "bc"; "a"; "b"]%string 0 = Ok [2; 4].
Proof. reflexivity. Qed.

(** C1 at a sample: the glob with two sections on a directory where the
    first section yields two indices. *)
Lemma match_directory_first_match_witness :
  sections glob_a_b <> []
  /\ exists verdict,
       match_directory posix_normcase posix_fnmatch glob_a_b
         ["a"; "a"; "b"]%string = Ok verdict
       /\ (Z.land verdict BIT_MATCH <> 0
           <-> consumes posix_normcase posix_fnmatch ["a"; "a"; "b"]%string
                 (sections glob_a_b) 0)
       /\ search_first_match posix_normcase posix_fnmatch glob_a_b true
            (sections glob_a_b) ["a"; "a"; "b"]%string 0 = Ok verdict
       /\ (forall s rest ends before stop after v,
             sections glob_a_b = s :: rest ->
             match_iter posix_normcase posix_fnmatch s
               ["a"; "a"; "b"]%string 0 = Ok ends ->
             ends = before ++ stop :: after ->
             (forall e, In e before ->
                exists v0,
                  match_recurse posix_normcase posix_fnmatch glob_a_b false
                    rest ["a"; "a"; "b"]%string e = Ok v0
                  /\ Z.land v0 BIT_MATCH = 0) ->
             match_recurse posix_normcase posix_fnmatch glob_a_b false rest
               ["a"; "a"; "b"]%string stop = Ok v ->
             Z.land v BIT_MATCH <> 0 ->
             verdict = v).
Proof.
  split; [discriminate|].
  apply (match_directory_first_match posix_normcase posix_fnmatch glob_a_b
           ["a"; "a"; "b"]%string).
  discriminate.
Defined.

(** The loop of the source returns the verdict of its first branch: here the
    first section yields 1 and 2, the branch at 1 finds the last section at
    the end of the directory, and MATCH is returned; on a directory that ends
    in another component both branches fail and both searches return
    NO_MATCH. *)
Lemma match_directory_sample :
  match_iter posix_normcase posix_fnmatch (mkSect [ConstantMatcher "a" "a"] false false)
    ["a"; "a"; "b"]%string 0 = Ok [1; 2]
  /\ match_directory posix_normcase posix_fnmatch glob_a_b
       ["a"; "a"; "b"]%string = Ok MATCH
  /\ match_directory posix_normcase posix_fnmatch glob_a_b
       ["a"; "a"; "x"]%string = Ok NO_MATCH
  /\ search_first_match posix_normcase posix_fnmatch glob_a_b true
       (sections glob_a_b) ["a"; "a"; "x"]%string 0 = Ok NO_MATCH.
Proof. repeat split. Qed.

(** C2 at a sample: [/test/*] on the directory [test]. *)
Lemma prune_soundness_witness :
  Pattern_init posix_normcase ["test"; "*"]%string = Ok glob_test
  /\ match_directory posix_normcase posix_fnmatch glob_test ["test"]%string
     = Ok MATCH_BUT_NO_SUBDIRECTORIES
  /\ Z.land MATCH_BUT_NO_SUBDIRECTORIES BIT_NO_SUBDIRECTORIES <> 0
  /\ (forall tail, tail <> [] ->
        exists verdict',
          match_directory posix_normcase posix_fnmatch glob_test
            (["test"]%string ++ tail) = Ok verdict'
          /\ Z.land verdict' BIT_MATCH = 0).
Proof.
  split; [reflexivity|]. split; [reflexivity|]. split; [discriminate|].
  apply (prune_soundness posix_normcase posix_fnmatch ["test"; "*"]%string
           glob_test ["test"]%string MATCH_BUT_NO_SUBDIRECTORIES);
    [reflexivity | reflexivity | discriminate].
Defined.

(** C3 at a sample: [**/build/**] on the directory [x/build]. *)
Lemma descendant_completeness_witness :
  Pattern_init posix_normcase ["**"; "build"; "**"]%string = Ok glob_build
  /\ match_directory posix_normcase posix_fnmatch glob_build
       ["x"; "build"]%string = Ok MATCH_ALL_SUBDIRECTORIES
  /\ Z.land MATCH_ALL_SUBDIRECTORIES BIT_ALL_SUBDIRECTORIES <> 0
  /\ (forall tail,
        exists verdict',
          match_directory posix_normcase posix_fnmatch glob_build
            (["x"; "build"]%string ++ tail) = Ok verdict'
          /\ Z.land verdict' BIT_MATCH <> 0).
Proof.
  split; [reflexivity|]. split; [reflexivity|]. split; [discriminate|].
  apply (descendant_completeness posix_normcase posix_fnmatch
           ["**"; "build"; "**"]%string glob_build ["x"; "build"]%string
           MATCH_ALL_SUBDIRECTORIES);
    [reflexivity | reflexivity | discriminate].
Defined.
(** C4 (amended). Compiling the glob [/src/**] gives a PatternSet of exactly
    two Patterns, the first with the trailing double star and the second
    without it; on the directory [src] the first returns
    MATCH_ALL_SUBDIRECTORIES and the second, which has no section and the
    file pattern [src] bound to the root, returns
    NO_MATCH_NO_SUBDIRECTORIES; the second returns
    MATCH_BUT_NO_SUBDIRECTORIES on the root directory only. *)
Theorem create_src_double_star (fresh : nat) :
  Pattern_create posix_normcase fresh "/src/**"
  = Ok (APatternSet {| patterns := [mkRef fresh glob_src_all;
                                    mkRef (S fresh) glob_src_file];
                       _all_files := Some true |})
  /\ match_directory posix_normcase posix_fnmatch glob_src_all ["src"]%string
     = Ok MATCH_ALL_SUBDIRECTORIES
  /\ match_directory posix_normcase posix_fnmatch glob_src_file ["src"]%string
     = Ok NO_MATCH_NO_SUBDIRECTORIES
  /\ match_directory posix_normcase posix_fnmatch glob_src_file []
     = Ok MATCH_BUT_NO_SUBDIRECTORIES.
Proof. repeat split. Qed.

(** The claim C4 as stated fails on the code: the two verdicts on [src] are
    not MATCH and MATCH_BUT_NO_SUBDIRECTORIES. *)
Lemma create_src_double_star_counterexample :
  exists p1 p2 v1 v2,
    Pattern_create posix_normcase 0 "/src/**"
    = Ok (APatternSet {| patterns := [mkRef 0 p1; mkRef 1 p2];
                         _all_files := Some true |})
    /\ match_directory posix_normcase posix_fnmatch p1 ["src"]%string = Ok v1
    /\ match_directory posix_normcase posix_fnmatch p2 ["src"]%string = Ok v2
    /\ v1 <> MATCH
    /\ v2 <> MATCH_BUT_NO_SUBDIRECTORIES
    /\ Z.land v2 BIT_MATCH = 0.
Proof.
  exists glob_src_all, glob_src_file,
    MATCH_ALL_SUBDIRECTORIES, NO_MATCH_NO_SUBDIRECTORIES.
  repeat split; discriminate.
Qed.

(** C5 on the code: a run of three separators is not collapsed. The single
    pass of [replace] turns [a///b] into [a//b], whose middle component is
    the empty string; the Pattern compiled is not the one of [a/b], and the
    two disagree on the directory [a]. *)
Lemma create_triple_slash :
  replace_double_slash (replace_backslash "a///b") = "a//b"%string
  /\ glob_elements "a///b" = ["a"; EmptyString; "b"]%string
  /\ glob_elements "a/b" = ["a"; "b"]%string
  /\ (exists p q,
        Pattern_create posix_normcase 0 "a///b" = Ok (APattern p)
        /\ Pattern_create posix_normcase 0 "a/b" = Ok (APattern q)
        /\ sections p = [mkSect [ConstantMatcher "a" "a";
                                 ConstantMatcher EmptyString EmptyString]
                                false true]
        /\ sections q = [mkSect [ConstantMatcher "a" "a"] false true]
        /\ p <> q
        /\ match_directory posix_normcase posix_fnmatch p ["a"]%string
           = Ok NO_MATCH
        /\ match_directory posix_normcase posix_fnmatch q ["a"]%string
           = Ok MATCH).
Proof.
  repeat split.
  eexists. eexists. repeat split; discriminate.
Qed.

(** The claim C6 as stated fails on the code: the empty glob does not raise,
    it compiles to the Pattern that matches every file of every directory;
    and a glob made of single dots raises IndexError, not PatternError. *)
Lemma create_empty_glob_counterexample :
  Pattern_create posix_normcase 0 EmptyString
  = Ok (APattern {| sections := []; p_bound_start := false;
                    p_bound_end := false; file_pattern := "*" |})
  /\ glob_elements EmptyString = [EmptyString]
  /\ Pattern_create posix_normcase 0 "." = Raise IndexError.
Proof. repeat split. Qed.

(** The claim C8 as stated fails on the code: names that were in the matched
    set before the call stay in it, though no Pattern selected them. *)
Lemma PatternSet_match_files_counterexample :
  exists (ps : PatternSet) (matched unmatched matched' : gset string),
    ps = PatternSet_append PatternSet_init (mkRef 0 glob_py)
    /\ matched = {[ "x"%string ]}
    /\ unmatched = {[ "a.py"%string; "b.txt"%string ]}
    /\ matched ∩ unmatched = ∅
    /\ fst (PatternSet_match_files posix_normcase posix_fnmatch ps
              matched unmatched) = matched'
    /\ ⋃ (map (fun r => file_matches posix_normcase posix_fnmatch
                          (deref r) unmatched) (patterns ps))
       = {[ "a.py"%string ]}
    /\ matched' = {[ "x"%string; "a.py"%string ]}
    /\ matched' <> {[ "a.py"%string ]}.
Proof.
  exists (PatternSet_append PatternSet_init (mkRef 0 glob_py)),
    {[ "x"%string ]}, {[ "a.py"%string; "b.txt"%string ]},
    {[ "x"%string; "a.py"%string ]}.
  split; [reflexivity|]. split; [reflexivity|]. split; [reflexivity|].
  split; [now vm_compute|]. split; [now vm_compute|].
  split; [now vm_compute|]. split; [reflexivity|].
  now vm_compute.
Qed.

(** C9 at a sample: a new PatternSet to which one Pattern was appended. *)
Lemma all_files_cache_correct_witness :
  constructed (PatternSet_append PatternSet_init (mkRef 0 glob_build))
  /\ (fst (PatternSet_all_files
             (PatternSet_append PatternSet_init (mkRef 0 glob_build))) = true
      <-> exists p,
            In p (patterns (PatternSet_append PatternSet_init
                              (mkRef 0 glob_build)))
            /\ Pattern_all_files (deref p) = true
            /\ file_pattern (deref p) = "*"%string)
  /\ (forall b,
        _all_files (PatternSet_append PatternSet_init (mkRef 0 glob_build))
        = Some b ->
        b = existsb (fun pat => Pattern_all_files (deref pat))
              (patterns (PatternSet_append PatternSet_init
                           (mkRef 0 glob_build)))).
Proof.
  split; [apply constructed_append, constructed_init|].
  apply (all_files_cache_correct
           (PatternSet_append PatternSet_init (mkRef 0 glob_build))).
  apply constructed_append, constructed_init.
Defined.

(** C10 at a sample: removing an object that is not in the set, although a
    Pattern with the same contents is. *)
Lemma remove_absent_raises_witness :
  (forall q,
     In q (patterns (PatternSet_append PatternSet_init (mkRef 0 glob_py))) ->
     same_object q (mkRef 1 glob_py) = false)
  /\ PatternSet_remove (PatternSet_append PatternSet_init (mkRef 0 glob_py))
       (mkRef 1 glob_py)
     = (PatternSet_append PatternSet_init (mkRef 0 glob_py), Raise ValueError)
  /\ patterns (fst (PatternSet_remove
                      (PatternSet_append PatternSet_init (mkRef 0 glob_py))
                      (mkRef 1 glob_py)))
     = patterns (PatternSet_append PatternSet_init (mkRef 0 glob_py))
  /\ _all_files (fst (PatternSet_remove
                        (PatternSet_append PatternSet_init (mkRef 0 glob_py))
                        (mkRef 1 glob_py)))
     = _all_files (PatternSet_append PatternSet_init (mkRef 0 glob_py)).
Proof.
  assert (H : forall q,
            In q (patterns (PatternSet_append PatternSet_init (mkRef 0 glob_py))) ->
            same_object q (mkRef 1 glob_py) = false).
  { intros q [<-|[]]. reflexivity. }
  split; [exact H|].
  apply (remove_absent_raises
           (PatternSet_append PatternSet_init (mkRef 0 glob_py))
           (mkRef 1 glob_py) H).
Defined.

(** * More of the module, on concrete data *)

(** X2 at a sample: the unanchored glob with two sections on a directory it
    does not match. *)
Lemma unanchored_never_prunes_witness :
  p_bound_start glob_a_b = false
  /\ exists verdict,
       match_directory posix_normcase posix_fnmatch glob_a_b
         ["x"; "y"]%string = Ok verdict
       /\ Z.land verdict BIT_NO_SUBDIRECTORIES = 0.
Proof.
  split; [reflexivity|].
  apply (unanchored_never_prunes posix_normcase posix_fnmatch glob_a_b
           ["x"; "y"]%string).
  reflexivity.
Defined.

(** X3 at a sample: the Pattern built from the elements of [**/a/**/b/*]. *)
Lemma Pattern_init_invariants_witness :
  Pattern_init posix_normcase ["**"; "a"; "**"; "b"; "*"]%string = Ok glob_a_b
  /\ (forall before s after,
        sections glob_a_b = before ++ s :: after ->
        elements s <> []
        /\ bound_start s = match before with
                           | [] => p_bound_start glob_a_b
                           | _ :: _ => false
                           end
        /\ bound_end s = match after with
                         | [] => p_bound_end glob_a_b
                         | _ :: _ => false
                         end)
  /\ (sections glob_a_b = [] -> p_bound_end glob_a_b = p_bound_start glob_a_b).
Proof.
  split; [reflexivity|].
  apply (Pattern_init_invariants posix_normcase posix_fnmatch
           ["**"; "a"; "**"; "b"; "*"]%string glob_a_b).
  reflexivity.
Defined.

(** X4 at a sample: [/test/*] on the root directory. *)
Lemma root_directory_no_match_witness :
  Pattern_init posix_normcase ["test"; "*"]%string = Ok glob_test
  /\ sections glob_test <> []
  /\ match_directory posix_normcase posix_fnmatch glob_test [] = Ok NO_MATCH.
Proof.
  split; [reflexivity|]. split; [discriminate|].
  apply (root_directory_no_match posix_normcase posix_fnmatch
           ["test"; "*"]%string glob_test); [reflexivity | discriminate].
Defined.

(** X7 at a sample: the same object appended twice, then removed once. *)
Lemma remove_present_witness :
  (exists q,
     In q (patterns (PatternSet_append
                       (PatternSet_append PatternSet_init (mkRef 0 glob_py))
                       (mkRef 0 glob_py)))
     /\ same_object q (mkRef 0 glob_py) = true)
  /\ exists before q after,
       patterns (PatternSet_append
                   (PatternSet_append PatternSet_init (mkRef 0 glob_py))
                   (mkRef 0 glob_py))
       = before ++ q :: after
       /\ same_object q (mkRef 0 glob_py) = true
       /\ (forall y, In y before -> same_object y (mkRef 0 glob_py) = false)
       /\ PatternSet_remove
            (PatternSet_append
               (PatternSet_append PatternSet_init (mkRef 0 glob_py))
               (mkRef 0 glob_py))
            (mkRef 0 glob_py)
          = ({| patterns := before ++ after; _all_files := None |}, Ok tt).
Proof.
  assert (H : exists q,
            In q (patterns (PatternSet_append
                              (PatternSet_append PatternSet_init (mkRef 0 glob_py))
                              (mkRef 0 glob_py)))
            /\ same_object q (mkRef 0 glob_py) = true).
  { exists (mkRef 0 glob_py). split; [now left | reflexivity]. }
  split; [exact H|].
  apply (remove_present
           (PatternSet_append
              (PatternSet_append PatternSet_init (mkRef 0 glob_py))
              (mkRef 0 glob_py))
           (mkRef 0 glob_py) H).
Defined.

(** X11 at a sample: a set holding [*.py] extended by a list holding the
    Pattern of [**/build/**]. *)
Lemma extend_all_files_witness :
  constructed (PatternSet_append PatternSet_init (mkRef 0 glob_py))
  /\ fst (PatternSet_all_files
            (PatternSet_extend
               (PatternSet_append PatternSet_init (mkRef 0 glob_py))
               (PatternList [mkRef 1 glob_build])))
     = fst (PatternSet_all_files
              (PatternSet_append PatternSet_init (mkRef 0 glob_py)))
       || existsb (fun pat => Pattern_all_files (deref pat))
            [mkRef 1 glob_build].
Proof.
  split; [apply constructed_append, constructed_init|].
  apply (extend_all_files
           (PatternSet_append PatternSet_init (mkRef 0 glob_py))
           (PatternList [mkRef 1 glob_build])).
  apply constructed_append, constructed_init.
Defined.

(** X12 at a sample: two sections of two components each. *)
Lemma Section_eq_elements_witness :
  ["a"; "b"]%string <> []
  /\ ["a"; "c"]%string <> []
  /\ Forall (fun x => contains_char slash x = false) ["a"; "b"]%string
  /\ Forall (fun y => contains_char slash y = false) ["a"; "c"]%string
  /\ (Section_eq (Section_init posix_normcase ["a"; "b"]%string)
                 (Section_init posix_normcase ["a"; "c"]%string) = true
      <-> ["a"; "b"]%string = ["a"; "c"]%string)
  /\ (forall bs be bs' be',
        Section_eq
          (mkSect (elements (Section_init posix_normcase ["a"; "b"]%string)) bs be)
          (mkSect (elements (Section_init posix_normcase ["a"; "c"]%string)) bs' be')
        = Section_eq (Section_init posix_normcase ["a"; "b"]%string)
                     (Section_init posix_normcase ["a"; "c"]%string)).
Proof.
  assert (F1 : Forall (fun x => contains_char slash x = false) ["a"; "b"]%string)
    by (repeat constructor).
  assert (F2 : Forall (fun y => contains_char slash y = false) ["a"; "c"]%string)
    by (repeat constructor).
  split; [discriminate|]. split; [discriminate|].
  split; [exact F1|]. split; [exact F2|].
  apply (Section_eq_elements posix_normcase ["a"; "b"]%string ["a"; "c"]%string);
    [discriminate | discriminate | exact F1 | exact F2].
Defined.

(** X13 at a sample: the Pattern of the glob [a/**/b/]. *)
Lemma to_string_round_trip_witness :
  Pattern_init posix_normcase ["**"; "a"; "**"; "b"; "*"]%string = Ok glob_a_b
  /\ (forall s, posix_normcase s = s)
  /\ Forall plain_component ["**"; "a"; "**"; "b"; "*"]%string
  /\ Pattern_create posix_normcase 0%nat (Pattern_to_string glob_a_b)
     = Ok (APattern glob_a_b).
Proof.
  assert (Hn : forall s, posix_normcase s = s) by reflexivity.
  assert (Hi : Pattern_init posix_normcase ["**"; "a"; "**"; "b"; "*"]%string
               = Ok glob_a_b) by reflexivity.
  assert (Hp : Forall plain_component ["**"; "a"; "**"; "b"; "*"]%string).
  { repeat constructor; discriminate. }
  split; [exact Hi|]. split; [exact Hn|]. split; [exact Hp|].
  exact (to_string_round_trip posix_normcase posix_fnmatch 0%nat _ glob_a_b Hn Hi Hp).
Defined.

(** X14 at a sample: three paths walked from [root]. *)
Lemma walk_from_list_finds_witness :
  In "src/a/x.py"%string ["src/a/x.py"; "README"; "src/b.py"]%string
  /\ exists dirs names,
       In (fold_left posix_join (directories "src/a/x.py") "root"%string,
           dirs, names)
          (walk_from_list posix_join
             ["src/a/x.py"; "README"; "src/b.py"]%string "root")
       /\ In (file_name "src/a/x.py") names.
Proof.
  assert (H : In "src/a/x.py"%string
                 ["src/a/x.py"; "README"; "src/b.py"]%string)
    by (left; reflexivity).
  split; [exact H|].
  exact (walk_from_list_finds posix_join _ "root"%string _ H).
Defined.

(** X16 at a sample: the tuple of the directory [root/src]. *)
Lemma walk_from_list_shape_witness :
  In ("root/src"%string, ["a"%string], ["b.py"%string])
     (walk_from_list posix_join
        ["src/a/x.py"; "README"; "src/b.py"]%string "root")
  /\ List.NoDup ["a"%string]
  /\ forall sub, In sub ["a"%string] ->
       exists dirs' names',
         In (posix_join "root/src" sub, dirs', names')
            (walk_from_list posix_join
               ["src/a/x.py"; "README"; "src/b.py"]%string "root").
Proof.
  assert (H : In ("root/src"%string, ["a"%string], ["b.py"%string])
                 (walk_from_list posix_join
                    ["src/a/x.py"; "README"; "src/b.py"]%string "root"))
    by (right; left; reflexivity).
  split; [exact H|].
  exact (walk_from_list_shape posix_join _ "root"%string _ _ _ H).
Defined.
